(** * YouTube video summarizer: a shallow embedding of [summarizer.py]

    The pipeline of [YouTubeSummarizer] (download, audio extraction,
    transcription, summarization) and the command-line entry point [main]
    are embedded as functions in a small state-and-exception monad.  The
    external collaborators (yt-dlp, moviepy, the speech recogniser, the
    transformers pipeline, the file system) are oracles collected in the
    record [env]; everything the Python file itself computes (chunking,
    the length guard, joining, short-circuiting, the scratch directory
    scope, the report layout) is written out. *)

From Stdlib Require Import NArith Ascii String.
From Stdlib.Strings Require Import Byte.
From stdpp Require Import base numbers option list gmap.

Local Open Scope nat_scope.

(** ** Text *)

(** A Python [str] is a sequence of Unicode code points. *)
Abbreviation char := N (only parsing).
Abbreviation text := (list N) (only parsing).

(** A string literal of the source (all of them are ASCII). *)
Definition lit (s : string) : text := N_of_ascii <$> list_ascii_of_string s.
Arguments lit : simpl never.

Definition newline : text := [10%N].
Definition space : text := [32%N].

(** The characters [str.strip()] removes when it is called without an
    argument: those for which [str.isspace] holds. *)
Definition is_space (c : char) : bool :=
  ((9 <=? c) && (c <=? 13))%N || ((28 <=? c) && (c <=? 32))%N ||
  (c =? 133)%N || (c =? 160)%N || (c =? 5760)%N ||
  ((8192 <=? c) && (c <=? 8202))%N || (c =? 8232)%N || (c =? 8233)%N ||
  (c =? 8239)%N || (c =? 8287)%N || (c =? 12288)%N.

Fixpoint lstrip (s : text) : text :=
  match s with
  | [] => []
  | c :: s' => if is_space c then lstrip s' else s
  end.

Definition rstrip (s : text) : text := reverse (lstrip (reverse s)).

(** [s.strip()] *)
Definition strip (s : text) : text := rstrip (lstrip s).

(** [s[i:j]] for [0 <= i <= j]: out-of-range bounds are clamped. *)
Definition slice {A} (s : list A) (i j : nat) : list A := take (j - i) (drop i s).

(** [range(start, stop, step)] for a positive [step], produced the way the
    iterator does: the next value is yielded as long as it is below
    [stop]. *)
Fixpoint range_from (fuel i stop step : nat) : list nat :=
  match fuel with
  | 0 => []
  | S fuel' => if i <? stop then i :: range_from fuel' (i + step) stop step else []
  end.

Definition py_range (start stop step : nat) : list nat :=
  range_from (stop - start) start stop step.

(** [sep.join(parts)] *)
Fixpoint join (sep : text) (parts : list text) : text :=
  match parts with
  | [] => []
  | [p] => p
  | p :: rest => p ++ sep ++ join sep rest
  end.

(** ** Chunking (summarize_text, lines 82-83 and 87) *)

Definition max_chunk : nat := 1024.

(** [[text[i:i+n] for i in range(0, len(text), n)]] *)
Definition chunks_of (n : nat) (t : text) : list text :=
  (fun i => slice t i (i + n)) <$> py_range 0 (length t) n.

Definition chunks (t : text) : list text := chunks_of max_chunk t.

(** [len(chunk.strip()) > 50] *)
Definition substantial (chunk : text) : bool := 50 <? length (strip chunk).

(** Rounding-up division, used to state the number of chunks. *)
Definition ceil_div (a b : nat) : nat := (a + (b - 1)) / b.

(** ** Text files (main, lines 153-156)

    [open(path, 'w')] names no encoding and no newline mode: the text layer
    encodes with the locale's preferred encoding and writes [os.linesep]
    for every line feed.  Three encodings a locale can select are
    modelled. *)

Inductive codec : Type := UTF_8 | Latin_1 | US_ASCII.

Definition byte_of_N (n : N) : byte := default x00 (Byte.of_N n).

(** One code point in UTF-8 (strict error handling: surrogates are not
    encodable). *)
Definition utf8_char (c : char) : option (list byte) :=
  if (c <? 128)%N then Some [byte_of_N c]
  else if (c <? 2048)%N then
    Some [byte_of_N (N.lor 192 (N.shiftr c 6));
          byte_of_N (N.lor 128 (N.land c 63))]
  else if (c <? 65536)%N then
    if ((55296 <=? c) && (c <=? 57343))%N then None
    else Some [byte_of_N (N.lor 224 (N.shiftr c 12));
               byte_of_N (N.lor 128 (N.land (N.shiftr c 6) 63));
               byte_of_N (N.lor 128 (N.land c 63))]
  else if (c <? 1114112)%N then
    Some [byte_of_N (N.lor 240 (N.shiftr c 18));
          byte_of_N (N.lor 128 (N.land (N.shiftr c 12) 63));
          byte_of_N (N.lor 128 (N.land (N.shiftr c 6) 63));
          byte_of_N (N.lor 128 (N.land c 63))]
  else None.

Definition encode_char (k : codec) (c : char) : option (list byte) :=
  match k with
  | UTF_8 => utf8_char c
  | Latin_1 => if (c <? 256)%N then Some [byte_of_N c] else None
  | US_ASCII => if (c <? 128)%N then Some [byte_of_N c] else None
  end.

(** [s.encode(k)]; [None] stands for [UnicodeEncodeError]. *)
Fixpoint encode (k : codec) (s : text) : option (list byte) :=
  match s with
  | [] => Some []
  | c :: s' =>
      match encode_char k c, encode k s' with
      | Some b, Some bs => Some (b ++ bs)
      | _, _ => None
      end
  end.

(** Newline translation of a text file opened with [newline=None]. *)
Definition translate_newlines (linesep : text) (s : text) : text :=
  mjoin ((fun c => if (c =? 10)%N then linesep else [c]) <$> s).

(** ** The world outside the interpreter *)

(** A file inside a temporary directory: the directory and the file name. *)
Abbreviation path := (nat * list N)%type (only parsing).

Inductive outcome (A : Type) : Type :=
| Ok (a : A)
| Raise (msg : text).
Arguments Ok {A} a.
Arguments Raise {A} msg.

Inductive method : Type :=
| Download_video | Extract_audio | Transcribe_audio | Summarize_text.

(** What a run does that can be observed from outside, in order.
    [Invoke] marks the entry of a method of [YouTubeSummarizer]; the other
    events are calls of external collaborators. *)
Inductive event : Type :=
| Print (line : text)
| Invoke (m : method)
| ExtractInfo (url : text) (outdir : nat)
| WriteAudiofile (video audio : path)
| Recognize (audio : path)
| LoadPipeline (attempt : nat)
| CallModel (handle : nat) (chunk : text)
| MakeTemp (d : nat)
| RemoveTemp (d : nat)
| OpenWrite (p : text).

(** The external collaborators.  Each oracle answers with a value or with
    the exception it raises.
    - [extract_info url d]: yt-dlp run with its output template in
      directory [d]; the names of the files it leaves there, and the
      ['title'] entry of the info dictionary, if there is one;
    - [write_audiofile video audio]: moviepy decoding [video] and writing
      [audio]; the names of the files it leaves in the directory of
      [audio];
    - [recognize_google audio]: the recognised text;
    - [pipeline n]: the [n]-th call of
      [pipeline("summarization", model="facebook/bart-large-cnn")];
    - [run_model chunk]: the ['summary_text'] of the first result of the
      loaded pipeline on [chunk] (generation is deterministic,
      [do_sample=False]);
    - [open_for_writing p]: whether [open(p, 'w')] succeeds;
    - [preferred_encoding], [linesep]: the platform's text-file settings. *)
Record env : Type := {
  extract_info : text -> nat -> list text * outcome (option text);
  write_audiofile : path -> path -> list text * outcome unit;
  recognize_google : path -> outcome text;
  pipeline : nat -> outcome unit;
  run_model : text -> outcome text;
  open_for_writing : text -> outcome unit;
  preferred_encoding : codec;
  linesep : text
}.

(** The mutable state: the [summarizer] attribute of the one
    [YouTubeSummarizer] instance ([None], or the pipeline loaded by the
    given attempt), the number of pipeline loads attempted so far, the live
    temporary directories with the names of the files in them, the supply
    of fresh directory names, and the files written by [main]. *)
Record world : Type := {
  self_summarizer : option nat;
  load_calls : nat;
  tmpdirs : gmap nat (list text);
  next_tmp : nat;
  files : gmap (list N) (list byte)
}.

Definition set_summarizer (s : option nat) (w : world) : world :=
  {| self_summarizer := s; load_calls := load_calls w; tmpdirs := tmpdirs w;
     next_tmp := next_tmp w; files := files w |}.

Definition set_load_calls (n : nat) (w : world) : world :=
  {| self_summarizer := self_summarizer w; load_calls := n; tmpdirs := tmpdirs w;
     next_tmp := next_tmp w; files := files w |}.

Definition set_tmpdirs (t : gmap nat (list text)) (w : world) : world :=
  {| self_summarizer := self_summarizer w; load_calls := load_calls w; tmpdirs := t;
     next_tmp := next_tmp w; files := files w |}.

Definition set_next_tmp (n : nat) (w : world) : world :=
  {| self_summarizer := self_summarizer w; load_calls := load_calls w;
     tmpdirs := tmpdirs w; next_tmp := n; files := files w |}.

Definition set_files (f : gmap (list N) (list byte)) (w : world) : world :=
  {| self_summarizer := self_summarizer w; load_calls := load_calls w;
     tmpdirs := tmpdirs w; next_tmp := next_tmp w; files := f |}.

(** [YouTubeSummarizer()] in a process that has touched nothing yet
    ([__init__], line 29: [self.summarizer = None]). *)
Definition fresh_world : world :=
  {| self_summarizer := None; load_calls := 0; tmpdirs := ∅; next_tmp := 0;
     files := ∅ |}.

(** ** State, exceptions and a log of events *)

Definition M (A : Type) : Type := world -> outcome A * world * list event.

Definition ret {A} (a : A) : M A := fun w => (Ok a, w, []).

Definition raise {A} (msg : text) : M A := fun w => (Raise msg, w, []).

Definition bind {A B} (m : M A) (k : A -> M B) : M B := fun w =>
  match m w with
  | (Ok a, w1, ev1) =>
      match k a w1 with (r, w2, ev2) => (r, w2, ev1 ++ ev2) end
  | (Raise msg, w1, ev1) => (Raise msg, w1, ev1)
  end.

(** [try: m  except Exception as e: handler e].  An outcome [Raise]
    stands for an exception of class [Exception], the only kind the
    oracles of [env] raise; [KeyboardInterrupt] and [SystemExit], which
    [except Exception] lets through, are not modelled. *)
Definition try_except {A} (m : M A) (handler : text -> M A) : M A := fun w =>
  match m w with
  | (Ok a, w1, ev1) => (Ok a, w1, ev1)
  | (Raise msg, w1, ev1) =>
      match handler msg w1 with (r, w2, ev2) => (r, w2, ev1 ++ ev2) end
  end.

Definition emit (ev : event) : M unit := fun w => (Ok tt, w, [ev]).

Definition get : M world := fun w => (Ok w, w, []).

Definition modify (f : world -> world) : M unit := fun w => (Ok tt, f w, []).

(** An external call: its event, then its answer. *)
Definition call {A} (ev : event) (answer : outcome A) : M A :=
  fun w => (answer, w, [ev]).

Declare Scope prog_scope.
Delimit Scope prog_scope with prog.
Notation "x <- m ;; k" := (bind m (fun x => k))
  (at level 20, m at level 99, k at level 200, only parsing) : prog_scope.
Notation "m ;; k" := (bind m (fun _ => k))
  (at level 100, k at level 200, right associativity, only parsing) : prog_scope.
Local Open Scope prog_scope.

Definition value {A} (r : outcome A * world * list event) : outcome A := r.1.1.
Definition final {A} (r : outcome A * world * list event) : world := r.1.2.
Definition events {A} (r : outcome A * world * list event) : list event := r.2.

(** [print(line)], on a standard output that can take the line: the call
    is logged and returns.  Where the encoding of standard output cannot
    encode a line, Python's [print] raises [UnicodeEncodeError] instead;
    statements about what a run prints, or about what happens after it
    has printed, say so with [printable] (below). *)
Definition print (line : text) : M unit := emit (Print line).

(** The temporary directories: creating one (empty), leaving files in
    one, removing one with all it contains. *)
Definition make_dir (d : nat) (w : world) : world :=
  set_next_tmp (S d) (set_tmpdirs (<[d := []]> (tmpdirs w)) w).

Definition add_files (d : nat) (names : list text) (w : world) : world :=
  set_tmpdirs (<[d := default [] (tmpdirs w !! d) ++ names]> (tmpdirs w)) w.

Definition remove_dir (d : nat) (w : world) : world :=
  set_tmpdirs (delete d (tmpdirs w)) w.

(** [with tempfile.TemporaryDirectory() as d: body d]: the directory is
    created under a fresh name and removed with its content when the block
    is left, by a return or by an exception. *)
Definition with_temporary_directory {A} (body : nat -> M A) : M A := fun w =>
  let d := next_tmp w in
  match body d (make_dir d w) with
  | (r, w1, evs) => (r, remove_dir d w1, MakeTemp d :: evs ++ [RemoveTemp d])
  end.

(** Files an external tool leaves in directory [d]. *)
Definition leave_files (d : nat) (names : list text) : M unit :=
  modify (add_files d names).

(** ** class YouTubeSummarizer *)

(** [__init__] (lines 27-29): a new instance has no pipeline yet.  (The
    recogniser it creates is used through [recognize_google] only.) *)
Definition init : M unit := modify (set_summarizer None).

(** [download_video] (lines 31-48).  The pair it returns is [(None, None)]
    on failure and a path with a title otherwise; [option] of a pair says
    the same. *)
Definition download_video (e : env) (url : text) (output_path : nat)
  : M (option (path * text)) :=
  emit (Invoke Download_video);;
  try_except
    (leave_files output_path (extract_info e url output_path).1;;
     info_title <- call (ExtractInfo url output_path) (extract_info e url output_path).2;;
     let video_title := default (lit "video") info_title in
     let video_file := (output_path, video_title ++ lit ".mp4") in
     ret (Some (video_file, video_title)))
    (fun msg => print (lit "Error downloading video: " ++ msg);; ret None).

(** [extract_audio] (lines 50-61) *)
Definition extract_audio (e : env) (video_file audio_file : path) : M bool :=
  emit (Invoke Extract_audio);;
  try_except
    (leave_files audio_file.1 (write_audiofile e video_file audio_file).1;;
     call (WriteAudiofile video_file audio_file) (write_audiofile e video_file audio_file).2;;
     ret true)
    (fun msg => print (lit "Error extracting audio: " ++ msg);; ret false).

(** [transcribe_audio] (lines 63-72) *)
Definition transcribe_audio (e : env) (audio_file : path) : M (option text) :=
  emit (Invoke Transcribe_audio);;
  try_except
    (t <- call (Recognize audio_file) (recognize_google e audio_file);;
     ret (Some t))
    (fun msg => print (lit "Error transcribing audio: " ++ msg);; ret None).

(** Lines 78-79: [self.summarizer = pipeline(...)]; the attribute is
    assigned only if the call returns. *)
Definition load_pipeline (e : env) : M unit :=
  w <- get;;
  let n := load_calls w in
  modify (set_load_calls (S n));;
  call (LoadPipeline n) (pipeline e n);;
  modify (set_summarizer (Some n)).

(** Lines 88-92: [self.summarizer(chunk, ...)[0]['summary_text']] *)
Definition call_summarizer (e : env) (chunk : text) : M text :=
  w <- get;;
  match self_summarizer w with
  | Some h => call (CallModel h chunk) (run_model e chunk)
  | None => raise (lit "'NoneType' object is not callable")
  end.

(** The [for chunk in chunks] loop (lines 85-92). *)
Fixpoint summarize_loop (e : env) (cs : list text) (summaries : list text)
  : M (list text) :=
  match cs with
  | [] => ret summaries
  | chunk :: rest =>
      if substantial chunk then
        s <- call_summarizer e chunk;;
        summarize_loop e rest (summaries ++ [s])
      else summarize_loop e rest summaries
  end.

(** [summarize_text] (lines 74-97) *)
Definition summarize_text (e : env) (t : text) : M (option text) :=
  emit (Invoke Summarize_text);;
  try_except
    (w <- get;;
     match self_summarizer w with
     | None => load_pipeline e
     | Some _ => ret tt
     end;;
     summaries <- summarize_loop e (chunks t) [];;
     ret (Some (join space summaries)))
    (fun msg => print (lit "Error generating summary: " ++ msg);; ret None).

(** The dictionary returned by [process_video]. *)
Record result : Type := {
  title : text;
  transcription : text;
  summary : option text
}.

(** [process_video] (lines 99-132) *)
Definition process_video (e : env) (url : text) : M (option result) :=
  print (lit "Processing video: " ++ url);;
  with_temporary_directory (fun temp_path =>
    print (lit "Downloading video...");;
    downloaded <- download_video e url temp_path;;
    match downloaded with
    | None => ret None
    | Some (video_file, title) =>
        print (lit "Extracting audio...");;
        let audio_file := (temp_path, lit "audio.wav") in
        extracted <- extract_audio e video_file audio_file;;
        if negb extracted then ret None else
        print (lit "Transcribing audio...");;
        transcribed <- transcribe_audio e audio_file;;
        match transcribed with
        | None => ret None
        | Some [] => ret None
        | Some t =>
            print (lit "Generating summary...");;
            summary <- summarize_text e t;;
            ret (Some {| title := title; transcription := t; summary := summary |})
        end
    end).

(** Several jobs, one after the other, on the same instance. *)
Fixpoint run_jobs (e : env) (urls : list text) : M (list (option result)) :=
  match urls with
  | [] => ret []
  | url :: rest =>
      r <- process_video e url;;
      rs <- run_jobs e rest;;
      ret (r :: rs)
  end.

(** ** main *)

(** The parsed command line: [--url] is required, [--output] is [None]
    when it is omitted. *)
Record arguments : Type := {
  url : text;
  output : option text
}.

(** What [print(x)] and an f-string show for [x] a [str] or [None]. *)
Definition str_of (x : option text) : text := default (lit "None") x.

(** [if args.output:] *)
Definition truthy (x : option text) : bool :=
  match x with
  | Some (_ :: _) => true
  | _ => false
  end.

(** [open(p, 'w')]: the file is created or truncated. *)
Definition open_w (e : env) (p : text) : M unit :=
  call (OpenWrite p) (open_for_writing e p);;
  modify (fun w => set_files (<[p := []]> (files w)) w).

(** [f.write(s)] on the file opened at [p]. *)
Definition write (e : env) (p : text) (s : text) : M unit :=
  match encode (preferred_encoding e) (translate_newlines (linesep e) s) with
  | Some bytes =>
      modify (fun w => set_files (<[p := default [] (files w !! p) ++ bytes]> (files w)) w)
  | None => raise (lit "UnicodeEncodeError")
  end.

(** The text of the three [f.write] calls (lines 154-156). *)
Definition report_title (r : result) : text :=
  lit "Title: " ++ title r ++ newline ++ newline.
Definition report_summary (r : result) : text :=
  lit "Summary:" ++ newline ++ str_of (summary r) ++ newline ++ newline.
Definition report_transcription (r : result) : text :=
  lit "Full Transcription:" ++ newline ++ transcription r.

Definition banner : text := replicate 50 61%N.

(** [main] (lines 135-159) *)
Definition main (e : env) (args : arguments) : M unit :=
  init;;
  res <- process_video e (url args);;
  match res with
  | Some r =>
      print (newline ++ banner);;
      print (lit "Video: " ++ title r);;
      print banner;;
      print (newline ++ lit "Summary:");;
      print (str_of (summary r));;
      if truthy (output args) then
        let p := default [] (output args) in
        open_w e p;;
        write e p (report_title r);;
        write e p (report_summary r);;
        write e p (report_transcription r);;
        print (newline ++ lit "Results saved to: " ++ p)
      else ret tt
  | None => print (lit "Failed to process video")
  end.


(** ** Reading a log *)

Definition load_attempts (evs : list event) : list nat :=
  omap (fun ev => match ev with LoadPipeline n => Some n | _ => None end) evs.

Definition model_calls (evs : list event) : list (nat * text) :=
  omap (fun ev => match ev with CallModel h c => Some (h, c) | _ => None end) evs.

Definition is_ok {A} (o : outcome A) : bool :=
  match o with Ok _ => true | Raise _ => false end.

(** The loads that returned a pipeline. *)
Definition successful_loads (e : env) (evs : list event) : list nat :=
  filter (fun n => is_ok (pipeline e n)) (load_attempts evs).

(** The event of opening a file for writing. *)
Definition is_open (ev : event) : bool :=
  match ev with OpenWrite _ => true | _ => false end.

(** The method an event belongs to: its entry, or an external call that
    only this method makes. *)
Definition stage_of (ev : event) : option method :=
  match ev with
  | Invoke m => Some m
  | ExtractInfo _ _ => Some Download_video
  | WriteAudiofile _ _ => Some Extract_audio
  | Recognize _ => Some Transcribe_audio
  | LoadPipeline _ | CallModel _ _ => Some Summarize_text
  | _ => None
  end.

(** Method [m] was not entered and none of its external calls was made. *)
Definition not_invoked (m : method) (evs : list event) : Prop :=
  Forall (fun ev => stage_of ev ≠ Some m) evs.

(** The log of [process_video] up to the end of each of the first three
    stages. *)
Definition log_download (url : text) (d : nat) : list event :=
  [Print (lit "Processing video: " ++ url); MakeTemp d;
   Print (lit "Downloading video..."); Invoke Download_video; ExtractInfo url d].
Definition log_extract (video audio : path) : list event :=
  [Print (lit "Extracting audio..."); Invoke Extract_audio;
   WriteAudiofile video audio].
Definition log_transcribe (audio : path) : list event :=
  [Print (lit "Transcribing audio..."); Invoke Transcribe_audio; Recognize audio].

(** The loop of [summarize_text] as a function of the chunk list alone: the
    chunks handed to the model, and the summaries or the exception that
    ended the loop. *)
Fixpoint summaries_of (e : env) (cs : list text) (summaries : list text)
  : list text * outcome (list text) :=
  match cs with
  | [] => ([], Ok summaries)
  | chunk :: rest =>
      if substantial chunk then
        match run_model e chunk with
        | Ok s =>
            let r := summaries_of e rest (summaries ++ [s]) in (chunk :: r.1, r.2)
        | Raise msg => ([chunk], Raise msg)
        end
      else summaries_of e rest summaries
  end.

(** [summarize_text] once the pipeline with handle [h] is in place, after
    the events [pre], in world [w]. *)
Definition summarize_with (e : env) (t : text) (h : nat) (w : world)
    (pre : list event) : outcome (option text) * world * list event :=
  match summaries_of e (chunks t) [] with
  | (called, Ok ss) =>
      (Ok (Some (join space ss)), w,
       Invoke Summarize_text :: pre ++ (CallModel h <$> called))
  | (called, Raise msg) =>
      (Ok None, w,
       Invoke Summarize_text :: pre ++ (CallModel h <$> called) ++
         [Print (lit "Error generating summary: " ++ msg)])
  end.

(** Whether [summarize_text] gets hold of a pipeline in world [w] (one is
    loaded already, or the load it attempts succeeds), and the handle of
    the pipeline it then uses. *)
Definition pipeline_ready (e : env) (w : world) : bool :=
  match self_summarizer w with
  | Some _ => true
  | None => is_ok (pipeline e (load_calls w))
  end.

Definition handle_of (w : world) : nat := default (load_calls w) (self_summarizer w).

(** Two worlds in which the instance is in the same state. *)
Definition same_instance (w w' : world) : Prop :=
  self_summarizer w' = self_summarizer w ∧ load_calls w' = load_calls w.

(** ** Sample collaborators and inputs *)

Definition sample_env (dl : list text * outcome (option text))
    (ex : list text * outcome unit) (tr : outcome text)
    (load : nat -> outcome unit) (model : text -> outcome text) (k : codec) : env :=
  {| extract_info := fun _ _ => dl;
     write_audiofile := fun _ _ => ex;
     recognize_google := fun _ => tr;
     pipeline := load;
     run_model := model;
     open_for_writing := fun _ => Ok tt;
     preferred_encoding := k;
     linesep := newline |}.

Definition downloaded : list text * outcome (option text) :=
  ([lit "Talk.mp4"], Ok (Some (lit "Talk"))).
Definition extracted : list text * outcome unit := ([lit "audio.wav"], Ok tt).

(** A stand-in model: the summary of a chunk is its first three
    characters. *)
Definition first_three (chunk : text) : outcome text := Ok (take 3 chunk).

(** Everything works and the recogniser hears [transcript]. *)
Definition env_ok (transcript : text) : env :=
  sample_env downloaded extracted (Ok transcript) (fun _ => Ok tt) first_three UTF_8.

Definition env_download_fails : env :=
  sample_env ([lit "Talk.mp4.part"], Raise (lit "HTTP Error 403")) extracted
    (Ok (replicate 60 97%N)) (fun _ => Ok tt) first_three UTF_8.

Definition env_extract_fails : env :=
  sample_env downloaded ([], Raise (lit "no audio track"))
    (Ok (replicate 60 97%N)) (fun _ => Ok tt) first_three UTF_8.

Definition env_transcribe_fails : env :=
  sample_env downloaded extracted (Raise (lit "UnknownValueError"))
    (fun _ => Ok tt) first_three UTF_8.

(** The pipeline cannot be loaded. *)
Definition env_load_fails : env :=
  sample_env downloaded extracted (Ok (replicate 60 97%N))
    (fun _ => Raise (lit "out of memory")) first_three UTF_8.

(** The first load fails, the later ones succeed. *)
Definition env_load_fails_once : env :=
  sample_env downloaded extracted (Ok (replicate 60 97%N))
    (fun n => match n with 0 => Raise (lit "connection reset") | _ => Ok tt end)
    first_three UTF_8.


Definition speech : text := replicate 60 97%N.


(** 50 letters between blanks: one chunk whose trimmed length is 50. *)
Definition fifty : text := lit "  " ++ replicate 50 97%N ++ lit "  ".
Definition fifty_one : text := lit "  " ++ replicate 51 97%N ++ lit "  ".

(** A first chunk of 1024 characters, alone and followed by a short second
    chunk. *)
Definition padded_speech : text := speech ++ replicate 964 32%N.
Definition speech_with_tail : text := padded_speech ++ lit "thanks for watching".

Definition talk_url : text := lit "https://youtu.be/x".

Definition cli (out : option text) : arguments :=
  {| url := talk_url; output := out |}.

(** ** More readings of a log, and more samples *)

(** The lines printed, in order. *)
Definition printed (evs : list event) : list text :=
  omap (fun ev => match ev with Print line => Some line | _ => None end) evs.

(** Standard output with encoding [k] can take every line of the log:
    no [print] of the run raises [UnicodeEncodeError]. *)
Definition encodable (k : codec) (line : text) : bool :=
  match encode k line with Some _ => true | None => false end.

Definition printable (k : codec) (evs : list event) : bool :=
  forallb (encodable k) (printed evs).


(** The lines [main] prints for a result before it looks at [--output]
    (lines 146-150). *)
Definition result_lines (r : result) : list text :=
  [newline ++ banner; lit "Video: " ++ title r; banner;
   newline ++ lit "Summary:"; str_of (summary r)].

(** Three chunks that are all long enough: 1024 letters a, 1024 letters b,
    100 letters c. *)
Definition three_part_speech : text :=
  replicate 1024 97%N ++ replicate 1024 98%N ++ replicate 100 99%N.



(** The output file cannot be opened. *)
Definition env_open_fails : env :=
  {| extract_info := fun _ _ => downloaded;
     write_audiofile := fun _ _ => extracted;
     recognize_google := fun _ => Ok speech;
     pipeline := fun _ => Ok tt;
     run_model := first_three;
     open_for_writing := fun _ => Raise (lit "Permission denied");
     preferred_encoding := UTF_8;
     linesep := newline |}.

(** An ASCII locale, and a transcript with the letter U+00E9 in it. *)
Definition env_ascii : env :=
  sample_env downloaded extracted (Ok (speech ++ [233%N])) (fun _ => Ok tt)
    first_three US_ASCII.

(** * Properties *)

(** ** Chunking *)

Section Chunking.
Implicit Types (t : list N) (n i k : nat).

Lemma ceil_div_0 n : ceil_div 0 n = 0.
Proof.
  unfold ceil_div. destruct n as [|n]; [done|].
  apply Nat.div_small. lia.
Qed.

Lemma ceil_div_step a n : 0 < n → 0 < a → ceil_div a n = S (ceil_div (a - n) n).
Proof.
  intros Hn Ha. unfold ceil_div.
  destruct (decide (n ≤ a)) as [Hle|Hgt].
  - replace (a + (n - 1)) with ((a - n + (n - 1)) + 1 * n) by lia.
    rewrite Nat.div_add by lia. lia.
  - replace (a - n) with 0 by lia. simpl.
    rewrite (Nat.div_small (n - 1) n) by lia.
    replace (a + (n - 1)) with ((a - 1) + 1 * n) by lia.
    rewrite Nat.div_add by lia. rewrite Nat.div_small by lia. done.
Qed.



(** The iterator yields the multiples of [step] below [stop]; the fuel
    given by [py_range] is enough. *)
Lemma range_from_unfold fuel i stop step :
  0 < step → stop - i ≤ fuel →
  range_from fuel i stop step =
    (λ k, i + k * step) <$> seq 0 (ceil_div (stop - i) step).
Proof.
  intros Hstep. revert i. induction fuel as [|fuel IH]; intros i Hfuel.
  - replace (stop - i) with 0 by lia. by rewrite ceil_div_0.
  - simpl. case_eq (i <? stop); intros Hlt.
    + apply Nat.ltb_lt in Hlt.
      rewrite (ceil_div_step (stop - i) step) by lia.
      rewrite IH by lia. cbn [seq fmap list_fmap]. f_equal; [lia|].
      replace (stop - i - step) with (stop - (i + step)) by lia.
      rewrite <- seq_shift, <- list_fmap_compose.
      apply list_fmap_ext. intros _ k _. simpl. lia.
    + apply Nat.ltb_ge in Hlt. replace (stop - i) with 0 by lia.
      by rewrite ceil_div_0.
Qed.

Lemma chunks_of_unfold n t :
  0 < n →
  chunks_of n t = (λ k, take n (drop (k * n) t)) <$> seq 0 (ceil_div (length t) n).
Proof.
  intros Hn. unfold chunks_of, py_range, slice.
  rewrite range_from_unfold by lia. rewrite Nat.sub_0_r, <- list_fmap_compose.
  apply list_fmap_ext. intros _ k _. simpl. f_equal. lia.
Qed.

Lemma chunks_of_length n t :
  0 < n → length (chunks_of n t) = ceil_div (length t) n.
Proof. intros Hn. by rewrite chunks_of_unfold, length_fmap, length_seq. Qed.





(** A text shorter than the chunk size, and not empty, is its own single
    chunk. *)
Lemma chunks_of_short n t : 0 < length t → length t ≤ n → chunks_of n t = [t].
Proof.
  intros Hpos Hle. assert (0 < n) as Hn by lia.
  rewrite chunks_of_unfold by done.
  rewrite (ceil_div_step (length t) n) by done.
  replace (length t - n) with 0 by lia. rewrite ceil_div_0. simpl.
  by rewrite take_ge.
Qed.


End Chunking.


(** ** The stages, run on a world *)

Section Stages.
Context (e : env).

Lemma download_video_run url d w :
  download_video e url d w =
  match extract_info e url d with
  | (names, Ok info_title) =>
      let video_title := default (lit "video") info_title in
      (Ok (Some ((d, video_title ++ lit ".mp4"), video_title)),
       add_files d names w,
       [Invoke Download_video; ExtractInfo url d])
  | (names, Raise msg) =>
      (Ok None, add_files d names w,
       [Invoke Download_video; ExtractInfo url d;
        Print (lit "Error downloading video: " ++ msg)])
  end.
Proof. unfold download_video. by destruct (extract_info e url d) as [names [ti|msg]]. Qed.

Lemma extract_audio_run video audio w :
  extract_audio e video audio w =
  match write_audiofile e video audio with
  | (names, Ok _) =>
      (Ok true, add_files audio.1 names w,
       [Invoke Extract_audio; WriteAudiofile video audio])
  | (names, Raise msg) =>
      (Ok false, add_files audio.1 names w,
       [Invoke Extract_audio; WriteAudiofile video audio;
        Print (lit "Error extracting audio: " ++ msg)])
  end.
Proof.
  unfold extract_audio.
  by destruct (write_audiofile e video audio) as [names [[]|msg]].
Qed.

Lemma transcribe_audio_run audio w :
  transcribe_audio e audio w =
  match recognize_google e audio with
  | Ok t => (Ok (Some t), w, [Invoke Transcribe_audio; Recognize audio])
  | Raise msg =>
      (Ok None, w,
       [Invoke Transcribe_audio; Recognize audio;
        Print (lit "Error transcribing audio: " ++ msg)])
  end.
Proof. unfold transcribe_audio. by destruct (recognize_google e audio). Qed.

(** The loop neither changes the world nor consults it beyond the handle
    of the loaded pipeline. *)
Lemma summarize_loop_run cs acc w h :
  self_summarizer w = Some h →
  summarize_loop e cs acc w =
    ((summaries_of e cs acc).2, w, CallModel h <$> (summaries_of e cs acc).1).
Proof.
  intros Hh. revert acc. induction cs as [|c cs IH]; intros acc; [done|].
  simpl. destruct (substantial c); [|apply IH].
  unfold bind at 1, call_summarizer at 1, bind at 1, get. rewrite Hh. unfold call.
  destruct (run_model e c) as [s|msg]; [|done].
  rewrite IH. done.
Qed.

Lemma summarize_text_run t w :
  summarize_text e t w =
  match self_summarizer w with
  | Some h => summarize_with e t h w []
  | None =>
      let n := load_calls w in
      match pipeline e n with
      | Ok _ =>
          summarize_with e t n (set_summarizer (Some n) (set_load_calls (S n) w))
            [LoadPipeline n]
      | Raise msg =>
          (Ok None, set_load_calls (S n) w,
           [Invoke Summarize_text; LoadPipeline n;
            Print (lit "Error generating summary: " ++ msg)])
      end
  end.
Proof.
  unfold summarize_text, summarize_with.
  destruct (self_summarizer w) as [h|] eqn:Hw.
  - unfold bind at 1, emit, try_except, bind at 1, get. rewrite Hw.
    unfold bind at 1, ret at 1, bind at 1.
    rewrite (summarize_loop_run _ _ _ h Hw).
    destruct (summaries_of e (chunks t) []) as [called [ss|msg]]; cbn;
      by rewrite ?app_nil_r.
  - unfold bind at 1, emit, try_except, bind at 1, get. rewrite Hw.
    unfold bind at 1, load_pipeline, bind at 1, get, bind at 1, modify at 1,
      bind at 1, call.
    destruct (pipeline e (load_calls w)) as [[]|msg]; [|done].
    unfold modify, bind at 1.
    erewrite summarize_loop_run by done.
    destruct (summaries_of e (chunks t) []) as [called [ss|msg]]; cbn;
      by rewrite ?app_nil_r.
Qed.

Local Opaque download_video extract_audio transcribe_audio summarize_text.

(** [process_video], stage by stage. *)
Lemma process_video_run url w :
  let d := next_tmp w in
  let audio := (d, lit "audio.wav") in
  process_video e url w =
  match extract_info e url d with
  | (names1, Raise msg) =>
      (Ok None, remove_dir d (add_files d names1 (make_dir d w)),
       log_download url d ++
         [Print (lit "Error downloading video: " ++ msg); RemoveTemp d])
  | (names1, Ok info_title) =>
      let title := default (lit "video") info_title in
      let video := (d, title ++ lit ".mp4") in
      let w1 := add_files d names1 (make_dir d w) in
      let log1 := log_download url d ++ log_extract video audio in
      match write_audiofile e video audio with
      | (names2, Raise msg) =>
          (Ok None, remove_dir d (add_files d names2 w1),
           log1 ++ [Print (lit "Error extracting audio: " ++ msg); RemoveTemp d])
      | (names2, Ok _) =>
          let w2 := add_files d names2 w1 in
          let log2 := log1 ++ log_transcribe audio in
          match recognize_google e audio with
          | Raise msg =>
              (Ok None, remove_dir d w2,
               log2 ++ [Print (lit "Error transcribing audio: " ++ msg); RemoveTemp d])
          | Ok [] => (Ok None, remove_dir d w2, log2 ++ [RemoveTemp d])
          | Ok t =>
              let r := summarize_text e t w2 in
              (match value r with
               | Ok s => Ok (Some {| title := title; transcription := t; summary := s |})
               | Raise msg => Raise msg
               end,
               remove_dir d (final r),
               log2 ++ [Print (lit "Generating summary...")] ++ events r ++ [RemoveTemp d])
          end
      end
  end.
Proof.
  intros d audio. unfold process_video, with_temporary_directory, bind, print, emit.
  fold d. rewrite download_video_run.
  destruct (extract_info e url d) as [names1 [info_title|msg]]; [|done].
  cbn. rewrite extract_audio_run.
  destruct (write_audiofile e _ _) as [names2 [[]|msg]]; [|done].
  cbn. rewrite transcribe_audio_run. fold audio.
  destruct (recognize_google e audio) as [[|c t]|msg]; [done| |done].
  cbn. destruct (summarize_text e (c :: t) _) as [[[s|msg] w'] evs]; cbn;
    by rewrite ?app_nil_r.
Qed.

End Stages.

(** ** Summarization *)

Section Summarization.
Context (e : env).
Implicit Types (t c : list N) (cs ss acc : list (list N)) (w : world).

Local Abbreviation long c := (50 < length (strip c)).
Local Abbreviation summary_by c s := (run_model e c = Ok s).

Lemma substantial_spec c : substantial c = true ↔ long c.
Proof. unfold substantial. apply Nat.ltb_lt. Qed.

Lemma lstrip_length t : length (lstrip t) ≤ length t.
Proof.
  induction t as [|c t IH]; [done|]. simpl.
  destruct (is_space c); simpl; lia.
Qed.

Lemma strip_length t : length (strip t) ≤ length t.
Proof.
  unfold strip, rstrip. rewrite length_reverse.
  etrans; [apply lstrip_length|]. rewrite length_reverse. apply lstrip_length.
Qed.

Lemma filter_long_cons c cs :
  filter (λ c, long c) (c :: cs) =
    if substantial c then c :: filter (λ c, long c) cs else filter (λ c, long c) cs.
Proof.
  destruct (substantial c) eqn:Hc.
  - apply filter_cons_True. by apply substantial_spec.
  - apply filter_cons_False. rewrite <- substantial_spec. congruence.
Qed.

Lemma summaries_of_prefix cs acc :
  (summaries_of e cs acc).1 `prefix_of` filter (λ c, long c) cs.
Proof.
  revert acc. induction cs as [|c cs IH]; intros acc; [done|].
  rewrite filter_long_cons. simpl. destruct (substantial c); [|apply IH].
  destruct (run_model e c) as [s|msg]; simpl.
  - apply prefix_cons, IH.
  - apply prefix_cons, prefix_nil.
Qed.

Lemma summaries_of_Ok cs acc ss :
  (summaries_of e cs acc).2 = Ok ss →
  (summaries_of e cs acc).1 = filter (λ c, long c) cs ∧
  ∃ new, ss = acc ++ new ∧ Forall2 (λ c s, summary_by c s) (filter (λ c, long c) cs) new.
Proof.
  revert acc. induction cs as [|c cs IH]; intros acc.
  - simpl. intros [= <-]. split; [done|]. exists []. by rewrite app_nil_r.
  - rewrite filter_long_cons. simpl. destruct (substantial c); [|apply IH].
    destruct (run_model e c) as [s|msg] eqn:Hs; simpl; [|done].
    intros Hok. destruct (IH _ Hok) as (Hcalled & new & -> & Hnew).
    split; [by rewrite Hcalled|].
    exists (s :: new). rewrite <- app_assoc. split; [done|]. by constructor.
Qed.

Lemma summaries_of_Forall2 cs acc new :
  Forall2 (λ c s, summary_by c s) (filter (λ c, long c) cs) new →
  summaries_of e cs acc = (filter (λ c, long c) cs, Ok (acc ++ new)).
Proof.
  revert acc new. induction cs as [|c cs IH]; intros acc new.
  - simpl. intros ->%Forall2_nil_inv_l. by rewrite app_nil_r.
  - rewrite filter_long_cons. simpl. destruct (substantial c); [|apply IH].
    intros (s & new' & Hs & Hnew & ->)%Forall2_cons_inv_l.
    rewrite Hs, (IH _ new') by done. simpl. by rewrite <- app_assoc.
Qed.

Lemma summaries_of_filter cs acc :
  summaries_of e cs acc = summaries_of e (filter (λ c, long c) cs) acc.
Proof.
  revert acc. induction cs as [|c cs IH]; intros acc; [done|].
  rewrite filter_long_cons. simpl. destruct (substantial c) eqn:Hc; [|apply IH].
  simpl. rewrite Hc. destruct (run_model e c); [|done]. by rewrite IH.
Qed.

Lemma load_attempts_calls h cs : load_attempts (CallModel h <$> cs) = [].
Proof. by induction cs. Qed.

Lemma model_calls_calls h cs : model_calls (CallModel h <$> cs) = (h,.) <$> cs.
Proof. induction cs as [|c cs IH]; [done|]. cbn. by f_equal. Qed.

Lemma summarize_text_value t w :
  value (summarize_text e t w) =
    if pipeline_ready e w then
      match (summaries_of e (chunks t) []).2 with
      | Ok ss => Ok (Some (join space ss))
      | Raise _ => Ok None
      end
    else Ok None.
Proof.
  rewrite summarize_text_run. unfold pipeline_ready, summarize_with.
  destruct (self_summarizer w) as [h|].
  - by destruct (summaries_of e (chunks t) []) as [called [ss|msg]].
  - cbn. destruct (pipeline e (load_calls w)) as [[]|msg]; [|done].
    by destruct (summaries_of e (chunks t) []) as [called [ss|msg]].
Qed.

Lemma summarize_text_model_calls t w :
  model_calls (events (summarize_text e t w)) =
    if pipeline_ready e w then (handle_of w,.) <$> (summaries_of e (chunks t) []).1
    else [].
Proof.
  rewrite summarize_text_run. unfold pipeline_ready, handle_of, summarize_with.
  destruct (self_summarizer w) as [h|].
  - destruct (summaries_of e (chunks t) []) as [called [ss|msg]]; cbn.
    + apply model_calls_calls.
    + unfold model_calls. rewrite omap_app. cbn. rewrite app_nil_r.
      apply model_calls_calls.
  - cbn. destruct (pipeline e (load_calls w)) as [[]|msg]; [|done].
    destruct (summaries_of e (chunks t) []) as [called [ss|msg]]; cbn.
    + apply model_calls_calls.
    + unfold model_calls. rewrite omap_app. cbn. rewrite app_nil_r.
      apply model_calls_calls.
Qed.

Lemma summarize_text_load_attempts t w :
  load_attempts (events (summarize_text e t w)) =
    match self_summarizer w with Some _ => [] | None => [load_calls w] end.
Proof.
  rewrite summarize_text_run. unfold summarize_with.
  destruct (self_summarizer w) as [h|].
  - destruct (summaries_of e (chunks t) []) as [called [ss|msg]]; cbn.
    + apply load_attempts_calls.
    + unfold load_attempts. rewrite omap_app. cbn. rewrite app_nil_r.
      apply load_attempts_calls.
  - cbn. destruct (pipeline e (load_calls w)) as [[]|msg]; [|done].
    destruct (summaries_of e (chunks t) []) as [called [ss|msg]]; cbn; f_equal.
    + apply load_attempts_calls.
    + unfold load_attempts. rewrite omap_app. cbn. rewrite app_nil_r.
      apply load_attempts_calls.
Qed.

Lemma summarize_text_final t w :
  final (summarize_text e t w) =
    match self_summarizer w with
    | Some _ => w
    | None =>
        let w' := set_load_calls (S (load_calls w)) w in
        if is_ok (pipeline e (load_calls w))
        then set_summarizer (Some (load_calls w)) w' else w'
    end.
Proof.
  rewrite summarize_text_run. unfold summarize_with.
  destruct (self_summarizer w) as [h|].
  - by destruct (summaries_of e (chunks t) []) as [called [ss|msg]].
  - cbn. destruct (pipeline e (load_calls w)) as [[]|msg]; [|done].
    by destruct (summaries_of e (chunks t) []) as [called [ss|msg]].
Qed.

Lemma summarize_text_invoked t w :
  ∃ evs, events (summarize_text e t w) = Invoke Summarize_text :: evs.
Proof.
  rewrite summarize_text_run. unfold summarize_with.
  destruct (self_summarizer w) as [h|].
  - destruct (summaries_of e (chunks t) []) as [called [ss|msg]]; by eexists.
  - cbn. destruct (pipeline e (load_calls w)) as [[]|msg]; [|by eexists].
    destruct (summaries_of e (chunks t) []) as [called [ss|msg]]; by eexists.
Qed.

Lemma summarize_text_total t w : ∃ s, value (summarize_text e t w) = Ok s.
Proof.
  rewrite summarize_text_value. destruct (pipeline_ready e w); [|by eexists].
  destruct (summaries_of e (chunks t) []).2; by eexists.
Qed.

(** What a returned summary is made of. *)
Lemma summarize_text_Some t w s :
  value (summarize_text e t w) = Ok (Some s) →
  pipeline_ready e w = true ∧
  (summaries_of e (chunks t) []).1 = filter (λ c, long c) (chunks t) ∧
  ∃ ss, Forall2 (λ c s', summary_by c s') (filter (λ c, long c) (chunks t)) ss ∧
        s = join space ss.
Proof.
  rewrite summarize_text_value. destruct (pipeline_ready e w); [|done].
  destruct (summaries_of e (chunks t) []).2 as [ss|msg] eqn:Hss; [|done].
  intros [= <-]. split; [done|].
  destruct (summaries_of_Ok _ _ _ Hss) as (Hcalled & new & -> & Hnew).
  split; [done|]. by exists new.
Qed.


(** C3, as the code has it: when [summarize_text] returns a summary, the
    chunks handed to the model are, in order, exactly the chunks whose
    trimmed length is more than 50, so a chunk is skipped exactly when its
    trimmed length is at most 50; a chunk of trimmed length exactly 50 is
    skipped; and the summary returned is made of the summaries of the
    chunks that were not skipped. *)
Theorem skipped_iff_trimmed_at_most_50 t w s :
  value (summarize_text e t w) = Ok (Some s) →
  let called := (model_calls (events (summarize_text e t w))).*2 in
  called = filter (λ c, 50 < length (strip c)) (chunks t) ∧
  (∀ c, c ∈ chunks t → (c ∉ called ↔ length (strip c) ≤ 50)) ∧
  (∀ c, c ∈ chunks t → length (strip c) = 50 → c ∉ called) ∧
  (∃ ss, Forall2 (λ c s', run_model e c = Ok s') called ss ∧ s = join space ss).
Proof.
  intros Hs called.
  destruct (summarize_text_Some _ _ _ Hs) as (Hready & Hcalled & ss & Hss & ->).
  assert (called = filter (λ c, long c) (chunks t)) as Heq.
  { unfold called. rewrite summarize_text_model_calls, Hready, Hcalled.
    rewrite <- list_fmap_compose. apply list_fmap_id. }
  assert (∀ c, c ∈ chunks t → (c ∉ called ↔ length (strip c) ≤ 50)) as Hiff.
  { intros c Hc. rewrite Heq, list_elem_of_filter. split.
    - intros Hn. destruct (decide (50 < length (strip c))); [|lia].
      exfalso. by apply Hn.
    - intros Hle [Hlt _]. lia. }
  split; [done|]. split; [done|]. split.
  - intros c Hc H50. apply Hiff; [done|lia].
  - exists ss. by rewrite Heq.
Qed.

(** C4: the model is never called on a chunk whose trimmed length is at
    most 50; a summary that is returned is the join of the summaries of the
    longer chunks alone; and two transcripts with the same longer chunks
    get the same result and the same model calls, whatever their other
    chunks are. *)
Theorem short_chunks_excluded t w :
  let r := summarize_text e t w in
  (∀ h c, (h, c) ∈ model_calls (events r) →
     c ∈ chunks t ∧ ¬ length (strip c) ≤ 50) ∧
  (∀ s, value r = Ok (Some s) →
     ∃ ss, Forall2 (λ c s', run_model e c = Ok s')
             (filter (λ c, 50 < length (strip c)) (chunks t)) ss ∧
           s = join space ss) ∧
  (∀ t', filter (λ c, 50 < length (strip c)) (chunks t') =
         filter (λ c, 50 < length (strip c)) (chunks t) →
     value (summarize_text e t' w) = value r ∧
     model_calls (events (summarize_text e t' w)) = model_calls (events r)).
Proof.
  intros r. unfold r. split; [|split].
  - intros h c. rewrite summarize_text_model_calls.
    destruct (pipeline_ready e w); [|by intros ?%elem_of_nil].
    intros (c' & [= -> <-] & Hc)%list_elem_of_fmap.
    eapply elem_of_prefix in Hc; [|apply summaries_of_prefix].
    apply list_elem_of_filter in Hc as [Hlong Hc]. split; [done|lia].
  - intros s Hs. by destruct (summarize_text_Some _ _ _ Hs) as (_ & _ & ?).
  - intros t' Hsame.
    rewrite !summarize_text_value, !summarize_text_model_calls.
    rewrite (summaries_of_filter (chunks t')), Hsame, <- summaries_of_filter.
    done.
Qed.

(** The joined text has the length of its parts, plus one separator
    between neighbours. *)
Lemma join_length sep ss :
  length (join sep ss) = sum_list (length <$> ss) + length sep * (length ss - 1).
Proof.
  induction ss as [|s [|s' ss] IH]; [simpl; lia|simpl; lia|].
  change (join sep (s :: s' :: ss)) with (s ++ sep ++ join sep (s' :: ss)).
  rewrite !length_app, IH. simpl. lia.
Qed.

(** [sep.join] written out: the first part, then each further part with
    the separator in front of it. *)
Lemma join_spelled_out sep ss :
  join sep ss =
    match ss with
    | [] => []
    | s1 :: rest => s1 ++ mjoin ((λ s', sep ++ s') <$> rest)
    end.
Proof.
  destruct ss as [|s1 rest]; [done|]. revert s1.
  induction rest as [|s2 rest IH]; intros s1.
  - simpl. by rewrite app_nil_r.
  - change (join sep (s1 :: s2 :: rest)) with (s1 ++ sep ++ join sep (s2 :: rest)).
    rewrite IH. cbn [fmap list_fmap mjoin list_join]. by rewrite <- app_assoc.
Qed.

(** C5: the summary returned is the summaries of the chunks that were
    summarized, all of them and in chunk order, with exactly one space
    (character 32) between two neighbours and nothing before the first or
    after the last: this is what a returned summary is, and it is returned
    whenever a pipeline is available and the model answers for every chunk
    of trimmed length above 50.  For a transcript shorter than 1024
    characters whose trimmed length is more than 50, the summary returned
    is exactly the model's summary of the whole transcript. *)
Theorem summaries_joined_by_space t w :
  (∀ s, value (summarize_text e t w) = Ok (Some s) →
     ∃ ss, Forall2 (λ c s', run_model e c = Ok s')
             (filter (λ c, 50 < length (strip c)) (chunks t)) ss ∧
           s = join [32%N] ss ∧
           s = match ss with
               | [] => []
               | s1 :: rest => s1 ++ mjoin ((λ s', 32%N :: s') <$> rest)
               end) ∧
  (∀ ss, pipeline_ready e w = true →
     Forall2 (λ c s', run_model e c = Ok s')
       (filter (λ c, 50 < length (strip c)) (chunks t)) ss →
     value (summarize_text e t w) =
       Ok (Some match ss with
                | [] => []
                | s1 :: rest => s1 ++ mjoin ((λ s', 32%N :: s') <$> rest)
                end)) ∧
  (∀ s, length t < 1024 → 50 < length (strip t) →
     pipeline_ready e w = true → run_model e t = Ok s →
     chunks t = [t] ∧ value (summarize_text e t w) = Ok (Some s)).
Proof.
  split; [|split].
  - intros s Hs.
    destruct (summarize_text_Some _ _ _ Hs) as (_ & _ & ss & Hss & ->).
    exists ss. split; [done|]. split; [done|].
    change [32%N] with space. apply (join_spelled_out space ss).
  - intros ss Hready Hss.
    rewrite summarize_text_value, Hready.
    rewrite (summaries_of_Forall2 (chunks t) [] ss) by done.
    cbn [snd app]. do 2 f_equal. apply (join_spelled_out space ss).
  - intros s Hshort Hlong Hready Hs.
    assert (chunks t = [t]) as Hchunks.
    { unfold chunks, max_chunk. apply chunks_of_short; [|lia].
      pose proof (strip_length t). lia. }
    split; [done|].
    rewrite summarize_text_value, Hready, Hchunks.
    rewrite (summaries_of_Forall2 [t] [] [s]); [done|].
    rewrite filter_cons_True by done. by constructor.
Qed.

End Summarization.

(** ** Jobs *)

Section Jobs.
Context (e : env).
Implicit Types (t url : list N) (w : world) (d : nat).

Local Opaque process_video summarize_text.

Lemma same_instance_scratch d names1 names2 w :
  same_instance w (add_files d names2 (add_files d names1 (make_dir d w))).
Proof. done. Qed.

Lemma summarize_text_value_instance t w w' :
  same_instance w w' →
  value (summarize_text e t w') = value (summarize_text e t w).
Proof.
  intros [Hs Hl]. rewrite !summarize_text_value. unfold pipeline_ready.
  by rewrite Hs, Hl.
Qed.

Lemma tmpdirs_summarize_text t w :
  tmpdirs (final (summarize_text e t w)) = tmpdirs w.
Proof.
  rewrite summarize_text_final. destruct (self_summarizer w); [done|].
  simpl. by destruct (is_ok _).
Qed.

Lemma files_summarize_text t w :
  files (final (summarize_text e t w)) = files w.
Proof.
  rewrite summarize_text_final. destruct (self_summarizer w); [done|].
  simpl. by destruct (is_ok _).
Qed.

Lemma delete_add_files d names w :
  delete d (tmpdirs (add_files d names w)) = delete d (tmpdirs w).
Proof. unfold add_files. simpl. apply delete_insert_eq. Qed.

Lemma delete_make_dir d w :
  delete d (tmpdirs (make_dir d w)) = delete d (tmpdirs w).
Proof. unfold make_dir. simpl. apply delete_insert_eq. Qed.

Lemma tmpdirs_remove_dir d w : tmpdirs (remove_dir d w) = delete d (tmpdirs w).
Proof. done. Qed.

Ltac scratch_gone :=
  unfold final at 1, events; cbn [fst snd];
  rewrite tmpdirs_remove_dir, ?delete_add_files, ?delete_make_dir.

(** C1 (what the code does): when download, extraction and transcription
    succeed with a transcript that is not empty and [summarize_text] yields
    [None], [process_video] does return a result: the title, the transcript
    and [None] for the summary. *)
Theorem failed_summary_still_returned url w names1 info_title names2 t :
  let d := next_tmp w in
  let title := default (lit "video") info_title in
  extract_info e url d = (names1, Ok info_title) →
  write_audiofile e (d, title ++ lit ".mp4") (d, lit "audio.wav") = (names2, Ok tt) →
  recognize_google e (d, lit "audio.wav") = Ok t →
  t ≠ [] →
  value (summarize_text e t w) = Ok None →
  value (process_video e url w) =
    Ok (Some {| title := title; transcription := t; summary := None |}).
Proof.
  intros d title Hdl Hex Htr Ht Hsum.
  rewrite process_video_run. fold d. rewrite Hdl. cbn zeta. fold title.
  rewrite Hex, Htr. destruct t as [|c t]; [done|].
  cbn zeta. unfold value at 1. cbn [fst].
  erewrite summarize_text_value_instance by apply same_instance_scratch.
  by rewrite Hsum.
Qed.

Ltac absent :=
  unfold not_invoked, log_download, log_extract, log_transcribe; cbn [app];
  repeat (apply Forall_cons; split; [done|]); by apply Forall_nil.

(** C6: a failed download keeps extraction, transcription and
    summarization from being invoked; a failed extraction keeps
    transcription and summarization from being invoked; a failed
    transcription keeps summarization from being invoked; and each time
    [process_video] returns [None]. *)
Theorem failure_short_circuits url w :
  let d := next_tmp w in
  let audio := (d, lit "audio.wav") in
  let r := process_video e url w in
  (∀ names msg,
     extract_info e url d = (names, Raise msg) →
     value r = Ok None ∧ not_invoked Extract_audio (events r) ∧
     not_invoked Transcribe_audio (events r) ∧
     not_invoked Summarize_text (events r)) ∧
  (∀ names1 info_title names2 msg,
     extract_info e url d = (names1, Ok info_title) →
     write_audiofile e (d, default (lit "video") info_title ++ lit ".mp4") audio
       = (names2, Raise msg) →
     value r = Ok None ∧ not_invoked Transcribe_audio (events r) ∧
     not_invoked Summarize_text (events r)) ∧
  (∀ names1 info_title names2 msg,
     extract_info e url d = (names1, Ok info_title) →
     write_audiofile e (d, default (lit "video") info_title ++ lit ".mp4") audio
       = (names2, Ok tt) →
     recognize_google e audio = Raise msg →
     value r = Ok None ∧ not_invoked Summarize_text (events r)).
Proof.
  intros d audio r. unfold r. rewrite process_video_run. fold d audio.
  split; [|split].
  - intros names msg ->. cbn. repeat split; absent.
  - intros names1 ti names2 msg -> Hex. cbn zeta. rewrite Hex. cbn.
    repeat split; absent.
  - intros names1 ti names2 msg -> Hex. cbn zeta. rewrite Hex. intros ->. cbn.
    repeat split; absent.
Qed.

(** C10: when the recogniser returns the empty string, [process_video]
    returns [None] without invoking summarization, as it does when
    transcription fails, although no error was raised or reported: the log
    ends with the call of the recogniser and the removal of the scratch
    directory. *)
Theorem empty_transcript_is_failure url w names1 info_title names2 :
  let d := next_tmp w in
  let video := (d, default (lit "video") info_title ++ lit ".mp4") in
  let audio := (d, lit "audio.wav") in
  let r := process_video e url w in
  extract_info e url d = (names1, Ok info_title) →
  write_audiofile e video audio = (names2, Ok tt) →
  recognize_google e audio = Ok [] →
  value r = Ok None ∧
  not_invoked Summarize_text (events r) ∧
  events r = log_download url d ++ log_extract video audio ++
               log_transcribe audio ++ [RemoveTemp d].
Proof.
  intros d video audio r Hdl Hex Htr. unfold r.
  rewrite process_video_run. fold d audio. rewrite Hdl. cbn zeta. fold video.
  rewrite Hex, Htr. cbn. repeat split; absent.
Qed.

(** C8: however the job ends, the scratch directory it created is gone
    afterwards with everything in it, removing it is the last thing the
    job does, and no other directory is touched; if the name was fresh,
    the temporary directories are back to what they were. *)
Theorem scratch_always_removed url w :
  let d := next_tmp w in
  let r := process_video e url w in
  tmpdirs (final r) !! d = None ∧
  tmpdirs (final r) = delete d (tmpdirs w) ∧
  (tmpdirs w !! d = None → tmpdirs (final r) = tmpdirs w) ∧
  head (events r) = Some (Print (lit "Processing video: " ++ url)) ∧
  events r !! 1 = Some (MakeTemp d) ∧
  last (events r) = Some (RemoveTemp d).
Proof.
  intros d r.
  assert (tmpdirs (final r) = delete d (tmpdirs w) ∧
          events r !! 1 = Some (MakeTemp d) ∧
          last (events r) = Some (RemoveTemp d)) as (Hdirs & Hmk & Hlast).
  { unfold r. rewrite process_video_run. fold d.
    destruct (extract_info e url d) as [names1 [ti|msg]]; cbn zeta.
    2:{ split; [by scratch_gone|done]. }
    destruct (write_audiofile e _ _) as [names2 [[]|msg]].
    2:{ split; [by scratch_gone|done]. }
    destruct (recognize_google e _) as [[|c t]|msg].
    - split; [by scratch_gone|done].
    - split; [scratch_gone; by rewrite tmpdirs_summarize_text, !delete_add_files, delete_make_dir|].
      split; [done|]. unfold events. cbn [snd]. rewrite !app_assoc. apply last_snoc.
    - split; [by scratch_gone|done]. }
  split; [rewrite Hdirs; apply lookup_delete_eq|]. split; [done|].
  split; [intros Hfresh; rewrite Hdirs; by apply delete_id|].
  split; [|done].
  unfold r. rewrite process_video_run. fold d.
  destruct (extract_info e url d) as [names1 [ti|msg]]; cbn zeta; [|done].
  destruct (write_audiofile e _ _) as [names2 [[]|msg]]; [|done].
  by destruct (recognize_google e _) as [[|c t]|msg].
Qed.

Lemma events_triple {A} (v : outcome A) w evs : events (v, w, evs) = evs.
Proof. done. Qed.

Lemma final_triple {A} (v : outcome A) w evs : final (v, w, evs) = w.
Proof. done. Qed.

Lemma process_video_total url w : ∃ r, value (process_video e url w) = Ok r.
Proof.
  rewrite process_video_run.
  destruct (extract_info e url _) as [names1 [ti|msg]]; cbn zeta; [|by eexists].
  destruct (write_audiofile e _ _) as [names2 [[]|msg]]; [|by eexists].
  destruct (recognize_google e _) as [[|c t]|msg]; [by eexists| |by eexists].
  unfold value at 1. cbn [fst].
  destruct (summarize_text_total e (c :: t) (add_files (next_tmp w) names2
    (add_files (next_tmp w) names1 (make_dir (next_tmp w) w)))) as [s ->].
  by eexists.
Qed.

(** A job either stops before summarization and leaves the instance as it
    was, or runs [summarize_text] once, on an instance in the state the job
    found it in. *)
Lemma process_video_instance url w :
  let r := process_video e url w in
  (not_invoked Summarize_text (events r) ∧ same_instance w (final r) ∧
   load_attempts (events r) = [] ∧ model_calls (events r) = []) ∨
  (∃ t w', same_instance w w' ∧ Invoke Summarize_text ∈ events r ∧
     load_attempts (events r) = load_attempts (events (summarize_text e t w')) ∧
     model_calls (events r) = model_calls (events (summarize_text e t w')) ∧
     same_instance (final (summarize_text e t w')) (final r)).
Proof.
  intros r. unfold r. rewrite process_video_run.
  destruct (extract_info e url _) as [names1 [ti|msg]]; cbn zeta.
  2:{ left. split; [absent|done]. }
  destruct (write_audiofile e _ _) as [names2 [[]|msg]].
  2:{ left. split; [absent|done]. }
  destruct (recognize_google e _) as [[|c t]|msg].
  1,3: left; split; [absent|done].
  right. eexists (c :: t), _. split; [apply same_instance_scratch|].
  rewrite !events_triple, final_triple.
  destruct (summarize_text_invoked e (c :: t) (add_files (next_tmp w) names2
    (add_files (next_tmp w) names1 (make_dir (next_tmp w) w)))) as [evs Hevs].
  split. { rewrite Hevs. set_solver. }
  split. { unfold load_attempts. rewrite !omap_app. cbn. by rewrite app_nil_r. }
  split. { unfold model_calls. rewrite !omap_app. cbn. by rewrite app_nil_r. }
  done.
Qed.

Lemma run_jobs_step url urls w :
  run_jobs e (url :: urls) w =
    bind (process_video e url) (λ r,
      bind (run_jobs e urls) (λ rs, ret (r :: rs))) w.
Proof. done. Qed.

Lemma run_jobs_total urls w : ∃ rs, value (run_jobs e urls w) = Ok rs.
Proof.
  revert w. induction urls as [|url urls IH]; intros w; [by eexists|].
  rewrite run_jobs_step. unfold bind.
  destruct (process_video_total url w) as [r Hr].
  destruct (process_video e url w) as [[v w1] ev1]. cbn in Hr. subst v.
  destruct (IH w1) as [rs Hrs].
  destruct (run_jobs e urls w1) as [[v2 w2] ev2]. cbn in Hrs. subst v2.
  by eexists.
Qed.

Lemma run_jobs_cons url urls w :
  let r1 := process_video e url w in
  let r2 := run_jobs e urls (final r1) in
  final (run_jobs e (url :: urls) w) = final r2 ∧
  events (run_jobs e (url :: urls) w) = events r1 ++ events r2.
Proof.
  intros r1 r2. unfold r2, r1. rewrite run_jobs_step. unfold bind.
  destruct (process_video_total url w) as [r Hr].
  destruct (process_video e url w) as [[v w1] ev1]. cbn in Hr. subst v.
  rewrite final_triple, events_triple.
  destruct (run_jobs_total urls w1) as [rs Hrs].
  destruct (run_jobs e urls w1) as [[v2 w2] ev2]. cbn in Hrs. subst v2.
  cbn. by rewrite app_nil_r.
Qed.

(** Once a pipeline is loaded, no job loads another one and every model
    call goes to it. *)
Lemma run_jobs_loaded urls w h :
  self_summarizer w = Some h →
  load_attempts (events (run_jobs e urls w)) = [] ∧
  (∀ h' c, (h', c) ∈ model_calls (events (run_jobs e urls w)) → h' = h).
Proof.
  revert w. induction urls as [|url urls IH]; intros w Hh.
  - split; [done|]. by intros h' c ?%elem_of_nil.
  - destruct (run_jobs_cons url urls w) as (_ & ->).
    assert (load_attempts (events (process_video e url w)) = [] ∧
            (∀ h' c, (h', c) ∈ model_calls (events (process_video e url w)) → h' = h) ∧
            self_summarizer (final (process_video e url w)) = Some h) as (Hl & Hc & Hs).
    { destruct (process_video_instance url w)
        as [(_ & [Hs _] & Hl & Hc)|(t & w' & [Hs' Hl'] & _ & Hl & Hc & [Hs _])].
      - rewrite Hl, Hc, Hs. split; [done|]. split; [|done]. by intros h' c ?%elem_of_nil.
      - rewrite Hl, Hc, Hs, summarize_text_load_attempts, summarize_text_model_calls,
          summarize_text_final. unfold pipeline_ready, handle_of. rewrite Hs', Hh.
        split; [done|]. split; [|by rewrite Hs', Hh].
        by intros h' c (c' & [= -> _] & _)%list_elem_of_fmap. }
    destruct (IH _ Hs) as [Hl2 Hc2].
    unfold load_attempts, model_calls in *. rewrite !omap_app, Hl, Hl2.
    split; [done|]. intros h' c [?|?]%elem_of_app; eauto.
Qed.

Lemma run_jobs_first_load urls w :
  self_summarizer w = None →
  pipeline e (load_calls w) = Ok tt →
  (not_invoked Summarize_text (events (run_jobs e urls w)) ∧
   load_attempts (events (run_jobs e urls w)) = [] ∧
   model_calls (events (run_jobs e urls w)) = []) ∨
  (load_attempts (events (run_jobs e urls w)) = [load_calls w] ∧
   ∀ h c, (h, c) ∈ model_calls (events (run_jobs e urls w)) → h = load_calls w).
Proof.
  revert w. induction urls as [|url urls IH]; intros w Hnone Hok.
  - left. split; [apply Forall_nil_2|done].
  - destruct (run_jobs_cons url urls w) as (_ & ->).
    destruct (process_video_instance url w)
      as [(Hni & [Hs Hlc] & Hl & Hc)|(t & w' & [Hs' Hl'] & _ & Hl & Hc & [Hs Hlc])].
    + destruct (IH (final (process_video e url w))) as [(Hni2 & Hl2 & Hc2)|[Hl2 Hc2]].
      { by rewrite Hs. } { by rewrite Hlc. }
      * left. unfold not_invoked, load_attempts, model_calls in *.
        rewrite Forall_app, !omap_app, Hl, Hc, Hl2, Hc2. by repeat split.
      * right. unfold load_attempts, model_calls in *.
        rewrite !omap_app, Hl, Hc, Hl2, Hlc. split; [done|].
        intros h c Hin. apply Hc2 in Hin. by rewrite Hin, Hlc.
    + right.
      assert (self_summarizer (final (process_video e url w)) = Some (load_calls w)) as Hh.
      { rewrite Hs, summarize_text_final, Hs', Hnone, Hl', Hok. done. }
      destruct (run_jobs_loaded urls _ _ Hh) as [Hl2 Hc2].
      unfold load_attempts, model_calls in *. rewrite !omap_app, Hl, Hc, Hl2.
      fold (load_attempts (events (summarize_text e t w'))).
      fold (model_calls (events (summarize_text e t w'))).
      rewrite summarize_text_load_attempts, summarize_text_model_calls.
      unfold pipeline_ready, handle_of. rewrite Hs', Hnone, Hl', Hok. cbn.
      split; [done|]. intros h c [Hin|Hin]%elem_of_app; [|by eapply Hc2].
      by apply list_elem_of_fmap in Hin as (c' & [= -> _] & _).
Qed.

Lemma run_jobs_successful_loads urls w :
  match self_summarizer w with
  | Some _ => load_attempts (events (run_jobs e urls w)) = []
  | None => length (successful_loads e (events (run_jobs e urls w))) ≤ 1
  end.
Proof.
  revert w. induction urls as [|url urls IH]; intros w.
  - destruct (self_summarizer w); [done|]. simpl. lia.
  - destruct (self_summarizer w) as [h|] eqn:Hw.
    { by destruct (run_jobs_loaded (url :: urls) w h Hw). }
    destruct (run_jobs_cons url urls w) as (_ & ->).
    unfold successful_loads, load_attempts. rewrite omap_app, filter_app, length_app.
    fold (load_attempts (events (process_video e url w))).
    fold (load_attempts (events (run_jobs e urls (final (process_video e url w))))).
    specialize (IH (final (process_video e url w))).
    destruct (process_video_instance url w)
      as [(_ & [Hs _] & Hl & _)|(t & w' & [Hs' Hl'] & _ & Hl & _ & [Hs _])].
    + rewrite Hs, Hw in IH. rewrite Hl. unfold successful_loads in IH.
      rewrite filter_nil. simpl. lia.
    + rewrite Hl, summarize_text_load_attempts, Hs', Hw, Hl'.
      rewrite Hs, summarize_text_final, Hs', Hw, Hl' in IH. cbn zeta in IH.
      destruct (pipeline e (load_calls w)) as [[]|msg] eqn:Hp; cbn in IH.
      * rewrite IH. rewrite filter_cons_True by (simpl; rewrite Hp; exact I).
        rewrite !filter_nil. simpl. lia.
      * rewrite filter_cons_False by (simpl; rewrite Hp; intros []).
        rewrite Hs', Hw in IH. unfold successful_loads in IH.
        rewrite filter_nil. simpl. lia.
Qed.

(** C7: over any sequence of jobs on one instance, a pipeline is
    successfully loaded at most once; an instance that has its pipeline
    never loads again and sends every model call to it; on a fresh instance
    whose first load succeeds, the load call is made at most once, it is
    made (once) as soon as some job reaches [summarize_text], and every
    chunk of every job goes to the pipeline that this one call returned.
    Two consecutive jobs are the sequence [[url1; url2]]. *)
Theorem model_loaded_once urls w :
  let r := run_jobs e urls w in
  length (successful_loads e (events r)) ≤ 1 ∧
  (∀ h, self_summarizer w = Some h →
     load_attempts (events r) = [] ∧
     ∀ h' c, (h', c) ∈ model_calls (events r) → h' = h) ∧
  (self_summarizer w = None → pipeline e (load_calls w) = Ok tt →
     length (load_attempts (events r)) ≤ 1 ∧
     (Invoke Summarize_text ∈ events r → load_attempts (events r) = [load_calls w]) ∧
     (∀ h c, (h, c) ∈ model_calls (events r) → h = load_calls w)).
Proof.
  intros r. unfold r. split; [|split].
  - pose proof (run_jobs_successful_loads urls w) as H.
    destruct (self_summarizer w); [|done].
    unfold successful_loads. rewrite H. simpl. lia.
  - intros h Hh. by apply run_jobs_loaded.
  - intros Hnone Hok.
    destruct (run_jobs_first_load urls w Hnone Hok) as [(Hni & Hl & Hc)|[Hl Hc]].
    + rewrite Hl, Hc. split; [simpl; lia|]. split.
      * intros Hin. unfold not_invoked in Hni. rewrite Forall_forall in Hni.
        by destruct (Hni _ Hin).
      * by intros h c ?%elem_of_nil.
    + rewrite Hl. split; [simpl; lia|]. done.
Qed.
End Jobs.

(** ** The report file *)

Section Report.
Context (e : env).
Implicit Types (t url p : list N) (w : world) (k : codec).

Local Opaque process_video summarize_text.




Lemma files_process_video url w : files (final (process_video e url w)) = files w.
Proof.
  rewrite process_video_run.
  destruct (extract_info e url _) as [names1 [ti|msg]]; cbn zeta; [|done].
  destruct (write_audiofile e _ _) as [names2 [[]|msg]]; [|done].
  destruct (recognize_google e _) as [[|c t]|msg]; [done| |done].
  rewrite final_triple. cbn [files remove_dir set_tmpdirs].
  by rewrite files_summarize_text.
Qed.

Lemma summarize_text_no_open t w :
  Forall (λ ev, is_open ev = false) (events (summarize_text e t w)).
Proof.
  assert (∀ h cs, Forall (λ ev, is_open ev = false) (CallModel h <$> cs)) as Hcalls.
  { intros h cs. by apply Forall_fmap, Forall_true. }
  rewrite summarize_text_run. unfold summarize_with.
  destruct (self_summarizer w) as [h|].
  - destruct (summaries_of e (chunks t) []) as [called [ss|msg]];
      rewrite events_triple; repeat first [apply Forall_cons_2; [done|] | apply Forall_app_2];
      by auto.
  - cbn zeta. destruct (pipeline e (load_calls w)) as [[]|msg].
    + destruct (summaries_of e (chunks t) []) as [called [ss|msg]];
        rewrite events_triple;
        repeat first [apply Forall_cons_2; [done|] | apply Forall_app_2]; by auto.
    + rewrite events_triple. by repeat (apply Forall_cons_2; [done|]).
Qed.

Lemma process_video_no_open url w :
  Forall (λ ev, is_open ev = false) (events (process_video e url w)).
Proof.
  rewrite process_video_run.
  destruct (extract_info e url _) as [names1 [ti|msg]]; cbn zeta.
  2:{ rewrite events_triple. by repeat (apply Forall_cons_2; [done|]). }
  destruct (write_audiofile e _ _) as [names2 [[]|msg]].
  2:{ rewrite events_triple. by repeat (apply Forall_cons_2; [done|]). }
  destruct (recognize_google e _) as [[|c t]|msg].
  1,3: rewrite events_triple; by repeat (apply Forall_cons_2; [done|]).
  rewrite events_triple. rewrite !Forall_app. repeat split.
  1-4,6: by repeat (apply Forall_cons_2; [done|]).
  apply summarize_text_no_open.
Qed.

End Report.

(** ** The properties on sample runs *)

(** The pipeline cannot be loaded: the job still returns a result. *)
Lemma failed_summary_still_returned_witness :
  value (summarize_text env_load_fails speech fresh_world) = Ok None ∧
  value (process_video env_load_fails talk_url fresh_world) =
    Ok (Some {| title := lit "Talk"; transcription := speech; summary := None |}).
Proof.
  split; [vm_compute; reflexivity|].
  apply (failed_summary_still_returned env_load_fails talk_url fresh_world
           [lit "Talk.mp4"] (Some (lit "Talk")) [lit "audio.wav"] speech).
  - reflexivity.
  - reflexivity.
  - reflexivity.
  - vm_compute. discriminate.
  - vm_compute. reflexivity.
Defined.

(** A chunk of trimmed length 51 is handed to the model. *)
Lemma skipped_iff_trimmed_at_most_50_witness :
  (model_calls (events (summarize_text (env_ok fifty_one) fifty_one fresh_world))).*2
    = [fifty_one] ∧
  length (strip fifty_one) = 51.
Proof.
  destruct (skipped_iff_trimmed_at_most_50 (env_ok fifty_one) fifty_one fresh_world
              (take 3 fifty_one)) as (Hcalled & _).
  - vm_compute. reflexivity.
  - split; [|vm_compute; reflexivity]. rewrite Hcalled. vm_compute. reflexivity.
Defined.

(** A chunk of trimmed length exactly 50 is not summarized: the model is
    not called and the summary returned is empty. *)
Lemma trimmed_length_50_is_skipped :
  chunks fifty = [fifty] ∧
  length (strip fifty) = 50 ∧
  ¬ length (strip fifty) < 50 ∧
  model_calls (events (summarize_text (env_ok fifty) fifty fresh_world)) = [] ∧
  value (summarize_text (env_ok fifty) fifty fresh_world) = Ok (Some []).
Proof.
  split; [vm_compute; reflexivity|]. split; [vm_compute; reflexivity|].
  split; [vm_compute; lia|]. split; vm_compute; reflexivity.
Qed.

(** A short second chunk changes nothing. *)
Lemma short_chunks_excluded_witness :
  value (summarize_text (env_ok speech_with_tail) padded_speech fresh_world) =
  value (summarize_text (env_ok speech_with_tail) speech_with_tail fresh_world).
Proof.
  destruct (short_chunks_excluded (env_ok speech_with_tail) speech_with_tail fresh_world)
    as (_ & _ & Hsame).
  apply (Hsame padded_speech). vm_compute. reflexivity.
Defined.

(** Three chunks summarized as aaa, bbb and ccc give "aaa bbb ccc"; one
    chunk gives the model's answer as it is. *)
Lemma summaries_joined_by_space_witness :
  value (summarize_text (env_ok three_part_speech) three_part_speech fresh_world)
    = Ok (Some (lit "aaa bbb ccc")) ∧
  value (summarize_text (env_ok speech) speech fresh_world) = Ok (Some (take 3 speech)).
Proof.
  split.
  - destruct (summaries_joined_by_space (env_ok three_part_speech) three_part_speech
                fresh_world) as (_ & Hall & _).
    rewrite (Hall [lit "aaa"; lit "bbb"; lit "ccc"]).
    + vm_compute. reflexivity.
    + reflexivity.
    + assert (filter (λ c, 50 < length (strip c)) (chunks three_part_speech) =
                [replicate 1024 97%N; replicate 1024 98%N; replicate 100 99%N]) as ->
        by (vm_compute; reflexivity).
      repeat (apply Forall2_cons_2; [vm_compute; reflexivity|]).
      apply Forall2_nil_2.
  - destruct (summaries_joined_by_space (env_ok speech) speech fresh_world)
      as (_ & _ & Hone).
    apply (Hone (take 3 speech)).
    + vm_compute. lia.
    + vm_compute. lia.
    + reflexivity.
    + reflexivity.
Defined.

(** A failure in each of the first three stages. *)
Lemma failure_short_circuits_witness :
  (value (process_video env_download_fails talk_url fresh_world) = Ok None ∧
   not_invoked Extract_audio (events (process_video env_download_fails talk_url fresh_world))) ∧
  (value (process_video env_extract_fails talk_url fresh_world) = Ok None ∧
   not_invoked Transcribe_audio (events (process_video env_extract_fails talk_url fresh_world))) ∧
  (value (process_video env_transcribe_fails talk_url fresh_world) = Ok None ∧
   not_invoked Summarize_text (events (process_video env_transcribe_fails talk_url fresh_world))).
Proof.
  split; [|split].
  - destruct (failure_short_circuits env_download_fails talk_url fresh_world) as (H & _).
    destruct (H [lit "Talk.mp4.part"] (lit "HTTP Error 403")) as (Hv & Hx & _);
      [reflexivity|]. by split.
  - destruct (failure_short_circuits env_extract_fails talk_url fresh_world) as (_ & H & _).
    destruct (H [lit "Talk.mp4"] (Some (lit "Talk")) [] (lit "no audio track"))
      as (Hv & Ht & _); [reflexivity|reflexivity|]. by split.
  - destruct (failure_short_circuits env_transcribe_fails talk_url fresh_world) as (_ & _ & H).
    destruct (H [lit "Talk.mp4"] (Some (lit "Talk")) [lit "audio.wav"] (lit "UnknownValueError"))
      as (Hv & Hs); [reflexivity|reflexivity|reflexivity|]. by split.
Defined.

(** The recogniser hears nothing. *)
Lemma empty_transcript_is_failure_witness :
  value (process_video (env_ok []) talk_url fresh_world) = Ok None ∧
  not_invoked Summarize_text (events (process_video (env_ok []) talk_url fresh_world)).
Proof.
  destruct (empty_transcript_is_failure (env_ok []) talk_url fresh_world
              [lit "Talk.mp4"] (Some (lit "Talk")) [lit "audio.wav"])
    as (Hv & Hs & _); [reflexivity|reflexivity|reflexivity|]. by split.
Defined.

(** After a job that succeeds and after one that fails in extraction, no
    temporary directory is left. *)
Lemma scratch_always_removed_witness :
  tmpdirs (final (process_video (env_ok speech) talk_url fresh_world)) = ∅ ∧
  tmpdirs (final (process_video env_extract_fails talk_url fresh_world)) = ∅.
Proof.
  split.
  - destruct (scratch_always_removed (env_ok speech) talk_url fresh_world)
      as (_ & _ & Hfresh & _). apply Hfresh. reflexivity.
  - destruct (scratch_always_removed env_extract_fails talk_url fresh_world)
      as (_ & _ & Hfresh & _). apply Hfresh. reflexivity.
Defined.

(** Two jobs: one load, and both model calls go to the pipeline it
    returned. *)
Lemma model_loaded_once_witness :
  load_attempts (events (run_jobs (env_ok speech) [talk_url; talk_url] fresh_world)) = [0] ∧
  (model_calls (events (run_jobs (env_ok speech) [talk_url; talk_url] fresh_world))).*1
    = [0; 0].
Proof.
  destruct (model_loaded_once (env_ok speech) [talk_url; talk_url] fresh_world)
    as (_ & _ & Hfresh).
  destruct Hfresh as (_ & Hone & _); [reflexivity|reflexivity|].
  split; [|vm_compute; reflexivity].
  apply Hone. apply (list_elem_of_lookup_2 _ 12). vm_compute. reflexivity.
Defined.



(** A load that raises leaves the attribute unset, and the next job tries
    again. *)
Example failed_load_is_retried :
  load_attempts (events (run_jobs env_load_fails_once [talk_url; talk_url] fresh_world))
    = [0; 1] ∧
  successful_loads env_load_fails_once
    (events (run_jobs env_load_fails_once [talk_url; talk_url] fresh_world)) = [1].
Proof. split; vm_compute; reflexivity. Qed.

(** * Further properties *)

(** ** Summarization, its edges and failures *)

Section MoreSummarization.
Context (e : env).
Implicit Types (t c : list N) (cs ss acc : list (list N)) (w : world).


Lemma printed_calls h cs : printed (CallModel h <$> cs) = [].
Proof. by induction cs. Qed.

Lemma summaries_of_nothing cs acc :
  Forall (λ c, length (strip c) ≤ 50) cs → summaries_of e cs acc = ([], Ok acc).
Proof.
  induction 1 as [|c cs Hc _ IH]; [done|]. simpl.
  assert (substantial c = false) as ->; [|done].
  unfold substantial. apply Nat.ltb_ge. lia.
Qed.

(** X1: when no chunk of the text has a trimmed length above 50 (an empty
    text, a short remark, blanks only), [summarize_text] still gets hold of
    the pipeline, loading it if the instance has none, makes no model call
    and returns the empty string, not [None]. *)
Theorem nothing_substantial_gives_empty_summary t w :
  Forall (λ c, length (strip c) ≤ 50) (chunks t) →
  pipeline_ready e w = true →
  value (summarize_text e t w) = Ok (Some []) ∧
  model_calls (events (summarize_text e t w)) = [] ∧
  load_attempts (events (summarize_text e t w)) =
    match self_summarizer w with Some _ => [] | None => [load_calls w] end.
Proof.
  intros Hshort Hready.
  rewrite summarize_text_value, summarize_text_model_calls,
    summarize_text_load_attempts, Hready, summaries_of_nothing by done.
  done.
Qed.




(** X4: [summarize_text] calls the model at most once per chunk, so at most
    [ceil(L / 1024)] times for a text of length [L], and loads the pipeline
    at most once. *)
Theorem at_most_one_call_per_chunk t w :
  length (model_calls (events (summarize_text e t w))) ≤ ceil_div (length t) 1024 ∧
  length (load_attempts (events (summarize_text e t w))) ≤ 1.
Proof.
  split.
  - rewrite summarize_text_model_calls.
    destruct (pipeline_ready e w); [|simpl; lia].
    rewrite length_fmap.
    etrans; [apply prefix_length, summaries_of_prefix|].
    etrans; [apply length_filter|].
    unfold chunks, max_chunk. rewrite chunks_of_length by lia. done.
  - rewrite summarize_text_load_attempts. destruct (self_summarizer w); simpl; lia.
Qed.


Lemma printed_summarize_text_Some t w s :
  value (summarize_text e t w) = Ok (Some s) →
  printed (events (summarize_text e t w)) = [].
Proof.
  rewrite summarize_text_run. unfold summarize_with.
  destruct (self_summarizer w) as [h|].
  - destruct (summaries_of e (chunks t) []) as [called [ss|msg]]; [|done].
    intros _. rewrite events_triple. unfold printed. cbn [omap list_omap app].
    fold (printed (CallModel h <$> called)). apply printed_calls.
  - cbn zeta. destruct (pipeline e (load_calls w)) as [[]|msg]; [|done].
    destruct (summaries_of e (chunks t) []) as [called [ss|msg]]; [|done].
    intros _. rewrite events_triple. unfold printed. cbn [omap list_omap app].
    fold (printed (CallModel (load_calls w) <$> called)). apply printed_calls.
Qed.

End MoreSummarization.

Section MoreChunking.
Implicit Types (t : list N) (n q : nat).

Lemma chunks_of_cons n t :
  0 < n → 0 < length t →
  chunks_of n t = take n t :: chunks_of n (drop n t).
Proof.
  intros Hn Ht. rewrite !chunks_of_unfold by done.
  rewrite (ceil_div_step (length t) n) by done. rewrite length_drop.
  cbn [seq fmap list_fmap]. f_equal.
  rewrite <- seq_shift, <- list_fmap_compose.
  apply list_fmap_ext. intros _ k _. simpl. rewrite drop_drop.
  do 2 f_equal; lia.
Qed.

Lemma chunks_of_app_aligned n q t1 t2 :
  0 < n → length t1 = q * n →
  chunks_of n (t1 ++ t2) = chunks_of n t1 ++ chunks_of n t2.
Proof.
  intros Hn. revert t1. induction q as [|q IH]; intros t1 Hlen.
  - by destruct t1.
  - simpl in Hlen. rewrite (chunks_of_cons n t1) by lia.
    rewrite (chunks_of_cons n (t1 ++ t2)) by (rewrite ?length_app; lia).
    rewrite take_app_le, drop_app_le by lia.
    rewrite IH by (rewrite length_drop; lia). done.
Qed.

(** X5: chunking goes from left to right and never looks back: when the
    first part of a text is a whole number of chunks long, the chunks of
    the text are the chunks of that part followed by the chunks of the
    rest, so text added at the end never changes a chunk that was full. *)
Theorem chunks_of_aligned_concatenation q t1 t2 :
  length t1 = q * 1024 → chunks (t1 ++ t2) = chunks t1 ++ chunks t2.
Proof.
  intros Hlen. unfold chunks, max_chunk.
  apply (chunks_of_app_aligned _ q); [lia|done].
Qed.

End MoreChunking.

(** ** Jobs, from the outside *)

Section MoreJobs.
Context (e : env).
Implicit Types (t url : list N) (w : world) (d : nat).

Local Opaque process_video summarize_text.


Ltac scratch_removed :=
  unfold final at 1; cbn [fst snd];
  rewrite tmpdirs_remove_dir, ?delete_add_files, ?delete_make_dir.



(** X8: a result that is returned carries the title yt-dlp reported
    (["video"] when it reported none), the text of the recogniser as it
    is, never empty, and whatever [summarize_text] returns for that text,
    [None] included. *)
Theorem result_fields url w res :
  let d := next_tmp w in
  value (process_video e url w) = Ok (Some res) →
  (∃ names info_title, extract_info e url d = (names, Ok info_title) ∧
     title res = default (lit "video") info_title) ∧
  recognize_google e (d, lit "audio.wav") = Ok (transcription res) ∧
  transcription res ≠ [] ∧
  value (summarize_text e (transcription res) w) = Ok (summary res).
Proof.
  intros d. rewrite process_video_run. fold d.
  destruct (extract_info e url d) as [names1 [ti|msg]]; cbn zeta; [|done].
  destruct (write_audiofile e _ _) as [names2 [[]|msg]]; [|done].
  destruct (recognize_google e _) as [[|c t]|msg]; [done| |done].
  unfold value at 1. cbn [fst].
  rewrite (summarize_text_value_instance e (c :: t) w) by apply same_instance_scratch.
  destruct (value (summarize_text e (c :: t) w)) as [s|msg] eqn:Hs; [|done].
  intros [= <-]. cbn. split; [by eexists _, _|]. done.
Qed.

(** X9: [process_video] opens no file for writing and leaves the files of
    the file system as they are; only [main] writes. *)
Theorem process_video_writes_no_file url w :
  files (final (process_video e url w)) = files w ∧
  Forall (λ ev, is_open ev = false) (events (process_video e url w)).
Proof. split; [apply files_process_video|apply process_video_no_open]. Qed.

Lemma process_video_scratch url w :
  tmpdirs (final (process_video e url w)) = delete (next_tmp w) (tmpdirs w) ∧
  next_tmp (final (process_video e url w)) = S (next_tmp w).
Proof.
  assert (∀ t w', next_tmp (final (summarize_text e t w')) = next_tmp w') as Hnext.
  { intros t w'. rewrite summarize_text_final. destruct (self_summarizer w'); [done|].
    cbn zeta. by destruct (is_ok _). }
  rewrite process_video_run.
  destruct (extract_info e url _) as [names1 [ti|msg]]; cbn zeta.
  2:{ split; [by scratch_removed|done]. }
  destruct (write_audiofile e _ _) as [names2 [[]|msg]].
  2:{ split; [by scratch_removed|done]. }
  destruct (recognize_google e _) as [[|c t]|msg].
  1,3: split; [by scratch_removed|done].
  split.
  - scratch_removed. by rewrite tmpdirs_summarize_text, !delete_add_files, delete_make_dir.
  - rewrite final_triple. cbn [next_tmp remove_dir set_tmpdirs]. by rewrite Hnext.
Qed.

(** X10: after any sequence of jobs no scratch directory is left: if no
    directory exists under a name that is still to be handed out, the
    temporary directories are exactly what they were before the first job,
    and each job has used a name of its own. *)
Theorem jobs_leave_no_scratch urls w :
  (∀ d, next_tmp w ≤ d → tmpdirs w !! d = None) →
  tmpdirs (final (run_jobs e urls w)) = tmpdirs w ∧
  next_tmp (final (run_jobs e urls w)) = next_tmp w + length urls.
Proof.
  revert w. induction urls as [|url urls IH]; intros w Hfresh.
  - split; [done|]. cbn. lia.
  - destruct (run_jobs_cons e url urls w) as [-> _].
    destruct (process_video_scratch url w) as [Hdirs Hnext].
    rewrite delete_id in Hdirs by (by apply Hfresh).
    destruct (IH (final (process_video e url w))) as [Hdirs' Hnext'].
    { intros d Hd. rewrite Hdirs. apply Hfresh. lia. }
    rewrite Hdirs', Hnext', Hdirs, Hnext. split; [done|]. simpl. lia.
Qed.


(** X11: a transcript that is not empty but has no chunk with a trimmed
    length above 50 (a few words, or blanks) makes a job that succeeds with
    the empty string as its summary, provided a pipeline can be had; the
    pipeline is loaded for it all the same. *)
Theorem short_transcript_job url w names1 info_title names2 t :
  let d := next_tmp w in
  let title := default (lit "video") info_title in
  extract_info e url d = (names1, Ok info_title) →
  write_audiofile e (d, title ++ lit ".mp4") (d, lit "audio.wav") = (names2, Ok tt) →
  recognize_google e (d, lit "audio.wav") = Ok t →
  t ≠ [] →
  Forall (λ c, length (strip c) ≤ 50) (chunks t) →
  pipeline_ready e w = true →
  value (process_video e url w) =
    Ok (Some {| title := title; transcription := t; summary := Some [] |}) ∧
  model_calls (events (process_video e url w)) = [] ∧
  load_attempts (events (process_video e url w)) =
    match self_summarizer w with Some _ => [] | None => [load_calls w] end.
Proof.
  intros d title Hdl Hex Htr Ht Hshort Hready.
  rewrite process_video_run. fold d. rewrite Hdl. cbn zeta. fold title.
  rewrite Hex, Htr. destruct t as [|c t]; [done|].
  set (w2 := add_files d names2 (add_files d names1 (make_dir d w))).
  assert (pipeline_ready e w2 = true) as Hready2 by done.
  rewrite events_triple. unfold value at 1. cbn [fst].
  rewrite summarize_text_value, Hready2, summaries_of_nothing by done.
  split; [done|].
  unfold model_calls, load_attempts. rewrite !omap_app.
  fold (model_calls (events (summarize_text e (c :: t) w2))).
  fold (load_attempts (events (summarize_text e (c :: t) w2))).
  rewrite summarize_text_model_calls, summarize_text_load_attempts, Hready2,
    summaries_of_nothing by done.
  split; [done|]. cbn. by rewrite app_nil_r.
Qed.

End MoreJobs.

(** ** main, from the outside *)

Section MoreMain.
Context (e : env).
Implicit Types (t url p : list N) (w : world) (args : arguments).

Local Opaque process_video summarize_text.

(** [main] after a job without result. *)
Lemma main_of_none args w :
  let r := process_video e (url args) (set_summarizer None w) in
  value r = Ok None →
  main e args w = (Ok tt, final r, events r ++ [Print (lit "Failed to process video")]).
Proof.
  intros r Hr. unfold main, bind, init, modify. fold r.
  destruct r as [[v w1] ev1]. cbn in Hr. subst v. done.
Qed.

(** [main] after a job with a result, when [args.output] is not truthy. *)
Lemma main_of_some_quiet args w res :
  let r := process_video e (url args) (set_summarizer None w) in
  value r = Ok (Some res) →
  truthy (output args) = false →
  main e args w = (Ok tt, final r, events r ++ (Print <$> result_lines res)).
Proof.
  intros r Hr Hout. unfold main, bind, init, modify. fold r.
  destruct r as [[v w1] ev1]. cbn in Hr. subst v. rewrite Hout. done.
Qed.

(** [main] up to the end of the [with open(...)] block. *)
Lemma main_of_some_saving args w res p :
  let r := process_video e (url args) (set_summarizer None w) in
  value r = Ok (Some res) →
  output args = Some p → p ≠ [] →
  main e args w =
    match
      bind (open_w e p) (λ _,
        bind (write e p (report_title res)) (λ _,
          bind (write e p (report_summary res)) (λ _,
            bind (write e p (report_transcription res)) (λ _,
              print (newline ++ lit "Results saved to: " ++ p))))) (final r)
    with
    | (v, w2, ev2) => (v, w2, events r ++ (Print <$> result_lines res) ++ ev2)
    end.
Proof.
  intros r Hr Hout Hp. unfold main, init, modify. fold r.
  unfold bind at 1 2. fold r.
  destruct r as [[v w1] ev1]. cbn in Hr. subst v. rewrite Hout.
  destruct p as [|c p]; [done|]. cbn [truthy default from_option id].
  unfold print at 1 2 3 4 5, emit, bind at 1 2 3 4 5.
  cbn [final events fst snd].
  by destruct (bind (open_w e (c :: p)) _ w1) as [[v w2] ev2].
Qed.

Lemma open_w_run p w :
  open_w e p w =
    match open_for_writing e p with
    | Ok _ => (Ok tt, set_files (<[p := []]> (files w)) w, [OpenWrite p])
    | Raise msg => (Raise msg, w, [OpenWrite p])
    end.
Proof. unfold open_w, bind, call. by destruct (open_for_writing e p). Qed.

Lemma write_run p s w :
  write e p s w =
    match encode (preferred_encoding e) (translate_newlines (linesep e) s) with
    | Some bytes =>
        (Ok tt, set_files (<[p := default [] (files w !! p) ++ bytes]> (files w)) w, [])
    | None => (Raise (lit "UnicodeEncodeError"), w, [])
    end.
Proof. unfold write. by destruct (encode _ _). Qed.

Local Opaque open_w write.

(** X12: when the job yields no result, [main] ends normally, its last line
    is the failure message, and it opens and writes no file, with or
    without [--output]. *)
Theorem failed_job_reported args w :
  value (process_video e (url args) (set_summarizer None w)) = Ok None →
  value (main e args w) = Ok tt ∧
  last (events (main e args w)) = Some (Print (lit "Failed to process video")) ∧
  files (final (main e args w)) = files w ∧
  Forall (λ ev, is_open ev = false) (events (main e args w)).
Proof.
  intros Hr. rewrite main_of_none by done.
  split; [done|]. split; [apply last_snoc|].
  split; [by rewrite final_triple, files_process_video|].
  rewrite events_triple. apply Forall_app. split; [apply process_video_no_open|].
  by apply Forall_singleton.
Qed.

(** X13: a path that is the empty string counts as no [--output]: on a
    standard output that can take every line of the run, with a result and
    without a truthy path, [main] prints the banner, the title, the banner,
    the summary header and the summary (the word None when there is no
    summary), ends normally and touches no file. *)
Theorem no_output_no_file (stdout : codec) args w res :
  printable stdout (events (main e args w)) = true →
  value (process_video e (url args) (set_summarizer None w)) = Ok (Some res) →
  output args = None ∨ output args = Some [] →
  value (main e args w) = Ok tt ∧
  events (main e args w) =
    events (process_video e (url args) (set_summarizer None w)) ++
      (Print <$> result_lines res) ∧
  files (final (main e args w)) = files w ∧
  Forall (λ ev, is_open ev = false) (events (main e args w)).
Proof.
  intros _ Hr Hout.
  assert (truthy (output args) = false) as Hquiet by (by destruct Hout as [->| ->]).
  rewrite (main_of_some_quiet args w res) by done.
  split; [done|]. split; [done|].
  split; [by rewrite final_triple, files_process_video|].
  rewrite events_triple. apply Forall_app. split; [apply process_video_no_open|].
  by repeat (apply Forall_cons_2; [done|]).
Qed.

(** X14: when the output file cannot be opened, the exception leaves [main]:
    the result has been printed, the attempt to open is the last thing
    that happens, nothing is written and no line about saved results
    appears. *)
Theorem open_failure_escapes_main args w res p msg :
  value (process_video e (url args) (set_summarizer None w)) = Ok (Some res) →
  output args = Some p → p ≠ [] →
  open_for_writing e p = Raise msg →
  value (main e args w) = Raise msg ∧
  events (main e args w) =
    events (process_video e (url args) (set_summarizer None w)) ++
      (Print <$> result_lines res) ++ [OpenWrite p] ∧
  files (final (main e args w)) = files w.
Proof.
  intros Hr Hout Hp Hopen.
  assert (main e args w =
    (Raise msg, final (process_video e (url args) (set_summarizer None w)),
     events (process_video e (url args) (set_summarizer None w)) ++
       (Print <$> result_lines res) ++ [OpenWrite p])) as ->.
  { rewrite (main_of_some_saving args w res p) by done.
    unfold bind at 1. by rewrite open_w_run, Hopen. }
  split; [done|]. split; [done|]. by rewrite final_triple, files_process_video.
Qed.

(** X15: the transcript is the one part of the report that is not
    printed before the file is opened.  On a standard output that can take
    every line of the run, when the title and summary parts can be encoded
    for the file and the transcription part cannot, the exception leaves
    [main]: the file keeps the title and summary parts, opening it was the
    last thing logged and no line about saved results is printed. *)
Theorem unencodable_report_leaves_partial_file (stdout : codec) args w res p b1 b2 :
  let enc s := encode (preferred_encoding e) (translate_newlines (linesep e) s) in
  let m := main e args w in
  printable stdout (events m) = true →
  value (process_video e (url args) (set_summarizer None w)) = Ok (Some res) →
  output args = Some p → p ≠ [] →
  open_for_writing e p = Ok tt →
  enc (report_title res) = Some b1 →
  enc (report_summary res) = Some b2 →
  enc (report_transcription res) = None →
  (∃ msg, value m = Raise msg) ∧
  files (final m) !! p = Some (b1 ++ b2) ∧
  events m =
    events (process_video e (url args) (set_summarizer None w)) ++
      (Print <$> result_lines res) ++ [OpenWrite p].
Proof.
  intros enc m _ Hr Hout Hp Hopen H1 H2 H3. unfold m, enc in *.
  pose proof (main_of_some_saving args w res p Hr Hout Hp) as Hmain.
  cbn zeta in Hmain. unfold bind at 1 in Hmain. rewrite open_w_run, Hopen in Hmain.
  unfold bind at 1 in Hmain. rewrite write_run, H1 in Hmain.
  unfold bind at 1 in Hmain. rewrite write_run, H2 in Hmain.
  unfold bind at 1 in Hmain. rewrite write_run, H3 in Hmain. rewrite Hmain.
  split; [by eexists|]. split.
  - rewrite final_triple. cbn [files set_files]. by rewrite !lookup_insert_eq.
  - rewrite events_triple. by rewrite !app_nil_r.
Qed.

(** X16: what the user reads when a job fails, on a standard output that
    can take every line of the run: the progress lines up to the stage that
    failed, one line that names the stage and carries the message of the
    exception, and the failure message; when the recogniser returns the
    empty string there is no line of explanation at all. *)
Theorem failure_messages (stdout : codec) args w :
  let d := next_tmp w in
  let audio := (d, lit "audio.wav") in
  let lines := printed (events (main e args w)) in
  printable stdout (events (main e args w)) = true →
  (∀ names msg,
     extract_info e (url args) d = (names, Raise msg) →
     lines = [lit "Processing video: " ++ url args; lit "Downloading video...";
              lit "Error downloading video: " ++ msg;
              lit "Failed to process video"]) ∧
  (∀ names1 info_title names2 msg,
     extract_info e (url args) d = (names1, Ok info_title) →
     write_audiofile e (d, default (lit "video") info_title ++ lit ".mp4") audio
       = (names2, Raise msg) →
     lines = [lit "Processing video: " ++ url args; lit "Downloading video...";
              lit "Extracting audio...";
              lit "Error extracting audio: " ++ msg;
              lit "Failed to process video"]) ∧
  (∀ names1 info_title names2 msg,
     extract_info e (url args) d = (names1, Ok info_title) →
     write_audiofile e (d, default (lit "video") info_title ++ lit ".mp4") audio
       = (names2, Ok tt) →
     recognize_google e audio = Raise msg →
     lines = [lit "Processing video: " ++ url args; lit "Downloading video...";
              lit "Extracting audio..."; lit "Transcribing audio...";
              lit "Error transcribing audio: " ++ msg;
              lit "Failed to process video"]) ∧
  (∀ names1 info_title names2,
     extract_info e (url args) d = (names1, Ok info_title) →
     write_audiofile e (d, default (lit "video") info_title ++ lit ".mp4") audio
       = (names2, Ok tt) →
     recognize_google e audio = Ok [] →
     lines = [lit "Processing video: " ++ url args; lit "Downloading video...";
              lit "Extracting audio..."; lit "Transcribing audio...";
              lit "Failed to process video"]).
Proof.
  intros d audio lines _. unfold lines.
  pose proof (process_video_run e (url args) (set_summarizer None w)) as Hrun.
  cbn zeta in Hrun. change (next_tmp (set_summarizer None w)) with d in Hrun.
  fold audio in Hrun.
  split; [|split; [|split]].
  - intros names msg Hdl. rewrite Hdl in Hrun.
    rewrite main_of_none by (by rewrite Hrun). by rewrite Hrun.
  - intros names1 ti names2 msg Hdl Hex. rewrite Hdl, Hex in Hrun.
    rewrite main_of_none by (by rewrite Hrun). by rewrite Hrun.
  - intros names1 ti names2 msg Hdl Hex Htr. rewrite Hdl, Hex, Htr in Hrun.
    rewrite main_of_none by (by rewrite Hrun). by rewrite Hrun.
  - intros names1 ti names2 Hdl Hex Htr. rewrite Hdl, Hex, Htr in Hrun.
    rewrite main_of_none by (by rewrite Hrun). by rewrite Hrun.
Qed.

(** X17: what the user reads when everything works and no file is asked
    for, on a standard output that can take every line of the run: one
    progress line in front of each of the four stages, then the banner, the
    title, the banner, the summary header and the summary. *)
Theorem success_transcript (stdout : codec) args w names1 info_title names2 t s :
  let d := next_tmp w in
  let title := default (lit "video") info_title in
  printable stdout (events (main e args w)) = true →
  extract_info e (url args) d = (names1, Ok info_title) →
  write_audiofile e (d, title ++ lit ".mp4") (d, lit "audio.wav") = (names2, Ok tt) →
  recognize_google e (d, lit "audio.wav") = Ok t →
  t ≠ [] →
  value (summarize_text e t (set_summarizer None w)) = Ok (Some s) →
  output args = None ∨ output args = Some [] →
  value (main e args w) = Ok tt ∧
  printed (events (main e args w)) =
    [lit "Processing video: " ++ url args; lit "Downloading video...";
     lit "Extracting audio..."; lit "Transcribing audio...";
     lit "Generating summary...";
     [10%N] ++ replicate 50 61%N; lit "Video: " ++ title; replicate 50 61%N;
     [10%N] ++ lit "Summary:"; s].
Proof.
  intros d title _ Hdl Hex Htr Ht Hs Hout.
  pose proof (process_video_run e (url args) (set_summarizer None w)) as Hrun.
  cbn zeta in Hrun. change (next_tmp (set_summarizer None w)) with d in Hrun.
  rewrite Hdl in Hrun. fold title in Hrun. rewrite Hex, Htr in Hrun.
  destruct t as [|c t]; [done|].
  set (w2 := add_files d names2 (add_files d names1
               (make_dir d (set_summarizer None w)))) in *.
  assert (value (summarize_text e (c :: t) w2) = Ok (Some s)) as Hs2.
  { by rewrite (summarize_text_value_instance e (c :: t) (set_summarizer None w)). }
  rewrite Hs2 in Hrun.
  assert (truthy (output args) = false) as Hquiet by (by destruct Hout as [->| ->]).
  rewrite (main_of_some_quiet args w
             {| title := title; transcription := c :: t; summary := Some s |})
    by (try rewrite Hrun; done).
  split; [done|]. rewrite events_triple, Hrun, events_triple.
  unfold printed. rewrite !omap_app.
  fold (printed (events (summarize_text e (c :: t) w2))).
  by rewrite (printed_summarize_text_Some e _ _ s).
Qed.
End MoreMain.

(** ** The further properties on sample runs *)

(** A remark of nine characters, and no text at all. *)
Lemma nothing_substantial_gives_empty_summary_witness :
  value (summarize_text (env_ok []) (lit "thank you") fresh_world) = Ok (Some []) ∧
  value (summarize_text (env_ok []) [] fresh_world) = Ok (Some []) ∧
  load_attempts (events (summarize_text (env_ok []) [] fresh_world)) = [0].
Proof.
  destruct (nothing_substantial_gives_empty_summary (env_ok []) (lit "thank you")
              fresh_world) as (Hv & _).
  { apply Forall_cons_2; [vm_compute; lia|apply Forall_nil_2]. }
  { reflexivity. }
  destruct (nothing_substantial_gives_empty_summary (env_ok []) [] fresh_world)
    as (Hv' & _ & Hl).
  { apply Forall_nil_2. }
  { reflexivity. }
  split; [exact Hv|]. split; [exact Hv'|exact Hl].
Defined.




(** The transcript of a result is what the recogniser returned. *)
Lemma result_fields_witness :
  recognize_google (env_ok speech) (0, lit "audio.wav") = Ok speech ∧ speech ≠ [].
Proof.
  destruct (result_fields (env_ok speech) talk_url fresh_world
              {| title := lit "Talk"; transcription := speech;
                 summary := Some (take 3 speech) |}) as (_ & Hr & Hne & _).
  - vm_compute. reflexivity.
  - split; [exact Hr|exact Hne].
Defined.

(** Three jobs, three directory names, nothing left. *)
Lemma jobs_leave_no_scratch_witness :
  tmpdirs (final (run_jobs (env_ok speech) [talk_url; talk_url; talk_url] fresh_world)) = ∅ ∧
  next_tmp (final (run_jobs (env_ok speech) [talk_url; talk_url; talk_url] fresh_world)) = 3.
Proof.
  apply (jobs_leave_no_scratch (env_ok speech) [talk_url; talk_url; talk_url] fresh_world).
  intros d _. reflexivity.
Defined.

(** A failed download, with [--output]: no file. *)
Lemma failed_job_reported_witness :
  value (main env_download_fails (cli (Some (lit "out.txt"))) fresh_world) = Ok tt ∧
  files (final (main env_download_fails (cli (Some (lit "out.txt"))) fresh_world)) = ∅.
Proof.
  destruct (failed_job_reported env_download_fails (cli (Some (lit "out.txt")))
              fresh_world) as (Hv & _ & Hf & _).
  - vm_compute. reflexivity.
  - split; [exact Hv|exact Hf].
Defined.

(** [--output] with the empty string. *)
Lemma no_output_no_file_witness :
  value (main (env_ok speech) (cli (Some [])) fresh_world) = Ok tt ∧
  files (final (main (env_ok speech) (cli (Some [])) fresh_world)) = ∅.
Proof.
  destruct (no_output_no_file (env_ok speech) UTF_8 (cli (Some [])) fresh_world
              {| title := lit "Talk"; transcription := speech;
                 summary := Some (take 3 speech) |}) as (Hv & _ & Hf & _).
  - vm_compute. reflexivity.
  - vm_compute. reflexivity.
  - right. reflexivity.
  - split; [exact Hv|exact Hf].
Defined.

(** The output path is not writable. *)
Lemma open_failure_escapes_main_witness :
  value (main env_open_fails (cli (Some (lit "/out.txt"))) fresh_world)
    = Raise (lit "Permission denied") ∧
  files (final (main env_open_fails (cli (Some (lit "/out.txt"))) fresh_world)) = ∅.
Proof.
  destruct (open_failure_escapes_main env_open_fails (cli (Some (lit "/out.txt")))
              fresh_world
              {| title := lit "Talk"; transcription := speech;
                 summary := Some (take 3 speech) |}
              (lit "/out.txt") (lit "Permission denied")) as (Hv & _ & Hf).
  - vm_compute. reflexivity.
  - reflexivity.
  - vm_compute. discriminate.
  - reflexivity.
  - split; [exact Hv|exact Hf].
Defined.

(** An ASCII locale, for the file and for standard output, and a
    transcript with a letter outside ASCII: everything is printed, and the
    file keeps the title and summary parts only. *)
Lemma unencodable_report_leaves_partial_file_witness :
  ∃ b1 b2,
    encode US_ASCII (lit "Title: Talk" ++ [10%N; 10%N]) = Some b1 ∧
    encode US_ASCII (lit "Summary:" ++ [10%N] ++ take 3 speech ++ [10%N; 10%N]) = Some b2 ∧
    printable US_ASCII (events (main env_ascii (cli (Some (lit "out.txt"))) fresh_world))
      = true ∧
    files (final (main env_ascii (cli (Some (lit "out.txt"))) fresh_world))
      !! lit "out.txt" = Some (b1 ++ b2).
Proof.
  eexists _, _. split; [vm_compute; reflexivity|].
  split; [vm_compute; reflexivity|]. split; [vm_compute; reflexivity|].
  apply (unencodable_report_leaves_partial_file env_ascii US_ASCII
           (cli (Some (lit "out.txt"))) fresh_world
           {| title := lit "Talk"; transcription := speech ++ [233%N];
              summary := Some (take 3 speech) |} (lit "out.txt")).
  - vm_compute. reflexivity.
  - vm_compute. reflexivity.
  - reflexivity.
  - vm_compute. discriminate.
  - reflexivity.
  - vm_compute. reflexivity.
  - vm_compute. reflexivity.
  - vm_compute. reflexivity.
Defined.

(** A recogniser that raises, and one that hears nothing. *)
Lemma failure_messages_witness :
  printed (events (main env_transcribe_fails (cli None) fresh_world)) =
    [lit "Processing video: " ++ talk_url; lit "Downloading video...";
     lit "Extracting audio..."; lit "Transcribing audio...";
     lit "Error transcribing audio: " ++ lit "UnknownValueError";
     lit "Failed to process video"] ∧
  printed (events (main (env_ok []) (cli None) fresh_world)) =
    [lit "Processing video: " ++ talk_url; lit "Downloading video...";
     lit "Extracting audio..."; lit "Transcribing audio...";
     lit "Failed to process video"].
Proof.
  split.
  - destruct (failure_messages env_transcribe_fails UTF_8 (cli None) fresh_world)
      as (_ & _ & H & _); [vm_compute; reflexivity|].
    apply (H [lit "Talk.mp4"] (Some (lit "Talk")) [lit "audio.wav"]
             (lit "UnknownValueError")); reflexivity.
  - destruct (failure_messages (env_ok []) UTF_8 (cli None) fresh_world)
      as (_ & _ & _ & H); [vm_compute; reflexivity|].
    apply (H [lit "Talk.mp4"] (Some (lit "Talk")) [lit "audio.wav"]); reflexivity.
Defined.

(** The lines of a run that works. *)
Lemma success_transcript_witness :
  printed (events (main (env_ok speech) (cli None) fresh_world)) =
    [lit "Processing video: " ++ talk_url; lit "Downloading video...";
     lit "Extracting audio..."; lit "Transcribing audio...";
     lit "Generating summary...";
     [10%N] ++ replicate 50 61%N; lit "Video: " ++ lit "Talk"; replicate 50 61%N;
     [10%N] ++ lit "Summary:"; take 3 speech].
Proof.
  destruct (success_transcript (env_ok speech) UTF_8 (cli None) fresh_world
              [lit "Talk.mp4"] (Some (lit "Talk")) [lit "audio.wav"] speech
              (take 3 speech)) as [_ H].
  - vm_compute. reflexivity.
  - reflexivity.
  - reflexivity.
  - reflexivity.
  - vm_compute. discriminate.
  - vm_compute. reflexivity.
  - left. reflexivity.
  - exact H.
Defined.

(** Nine characters of speech: an empty summary. *)
Lemma short_transcript_job_witness :
  value (process_video (env_ok (lit "thank you")) talk_url fresh_world) =
    Ok (Some {| title := lit "Talk"; transcription := lit "thank you";
                summary := Some [] |}).
Proof.
  destruct (short_transcript_job (env_ok (lit "thank you")) talk_url fresh_world
              [lit "Talk.mp4"] (Some (lit "Talk")) [lit "audio.wav"] (lit "thank you"))
    as (Hv & _).
  - reflexivity.
  - reflexivity.
  - reflexivity.
  - vm_compute. discriminate.
  - apply Forall_cons_2; [vm_compute; lia|apply Forall_nil_2].
  - reflexivity.
  - exact Hv.
Defined.

(** Two full chunks and a tail. *)
Lemma chunks_of_aligned_concatenation_witness :
  chunks (replicate 2048 97%N ++ lit "the end") =
    chunks (replicate 2048 97%N) ++ [lit "the end"].
Proof.
  rewrite (chunks_of_aligned_concatenation 2 (replicate 2048 97%N) (lit "the end")).
  - vm_compute. reflexivity.
  - vm_compute. reflexivity.
Defined.
